(** * fetch_messages.py: pagination and ordering engine

    A shallow embedding of [src/fetch_messages.py]: the values the program
    receives from the remote API, the ordering key and the sort built on
    it, message normalization, text extraction, the page fetcher, the
    one-pass streaming traversal and the caching pager, followed by the
    properties of the specification stated over these definitions. *)

From Stdlib Require Import ZArith String Ascii List Bool Lia Permutation Sorted
  OrderedTypeEx.
From stdpp Require Import base option gmap strings list sorting.

Local Open Scope string_scope.
Local Open Scope list_scope.
Local Open Scope Z_scope.

(** ** Python values

    What [response.json()] can return: [None], booleans, integers, floats,
    strings, lists and dicts with string keys.  A [str] is the string of
    its UTF-8 bytes.  A float is the dyadic rational [m * 2^e] (the
    non-standard JSON literals NaN and Infinity are not represented).  A
    dict is the list of its items in insertion order; [dict_get] reads the
    first item with the key, as the items of a dict have distinct keys. *)

#[warnings="-register-all"]
Inductive pyval : Type :=
  | PNone
  | PBool (b : bool)
  | PInt (n : Z)
  | PFloat (m e : Z)
  | PStr (s : string)
  | PList (l : list pyval)
  | PDict (d : list (string * pyval)).

Abbreviation pydict := (list (string * pyval)).

(** The exceptions the modelled code can raise and does not catch. *)
Inductive exn : Type := AttributeError | TypeError.

(** The result of running a piece of code: a value, an uncaught exception,
    or [OutOfFuel] when a loop was cut off by the fuel of the model. *)
Inductive outcome (A : Type) : Type :=
  | Ret (a : A)
  | Raise (e : exn)
  | OutOfFuel.
Arguments Ret {A} a.
Arguments Raise {A} e.
Arguments OutOfFuel {A}.

Definition obind {A B} (m : outcome A) (f : A -> outcome B) : outcome B :=
  match m with
  | Ret a => f a
  | Raise e => Raise e
  | OutOfFuel => OutOfFuel
  end.

Notation "'let?' x ':=' m 'in' k" := (obind m (fun x => k))
  (at level 10, x name, m at level 100, k at level 200).

(** [bool(v)]: the truth value of a Python value. *)
Definition truthy (v : pyval) : bool :=
  match v with
  | PNone => false
  | PBool b => b
  | PInt n => negb (n =? 0)
  | PFloat m _ => negb (m =? 0)
  | PStr s => negb (String.eqb s "")
  | PList l => match l with [] => false | _ => true end
  | PDict d => match d with [] => false | _ => true end
  end.

(** [a or b]. *)
Definition py_or (a b : pyval) : pyval := if truthy a then a else b.

Fixpoint dict_get (d : pydict) (k : string) : option pyval :=
  match d with
  | [] => None
  | (k', v) :: d' => if String.eqb k' k then Some v else dict_get d' k
  end.

(** [d.get(k)] and [d.get(k, dflt)] on a dict. *)
Definition dict_get_default (d : pydict) (k : string) (dflt : pyval) : pyval :=
  match dict_get d k with Some v => v | None => dflt end.

Definition dict_get_none (d : pydict) (k : string) : pyval :=
  dict_get_default d k PNone.

(** [v.get(k, dflt)] on a value that was not tested to be a dict: only a
    dict has the method. *)
Definition py_get (v : pyval) (k : string) (dflt : pyval) : outcome pyval :=
  match v with
  | PDict d => Ret (dict_get_default d k dflt)
  | _ => Raise AttributeError
  end.

(** *** Strings *)

Definition byte_of (c : ascii) : N := N_of_ascii c.

(** One-byte white space: the ASCII characters [str.strip] removes. *)
Definition is_space1 (c : ascii) : bool :=
  let n := byte_of c in
  ((9 <=? n) && (n <=? 13) || (28 <=? n) && (n <=? 32))%N.

(** Two-byte white space: U+0085 and U+00A0. *)
Definition is_space2 (c1 c2 : ascii) : bool :=
  ((byte_of c1 =? 194) && ((byte_of c2 =? 133) || (byte_of c2 =? 160)))%N.

(** Three-byte white space: U+1680, U+2000..U+200A, U+2028, U+2029,
    U+202F, U+205F and U+3000. *)
Definition is_space3 (c1 c2 c3 : ascii) : bool :=
  let a := byte_of c1 in
  let b := byte_of c2 in
  let c := byte_of c3 in
  ((a =? 225) && (b =? 154) && (c =? 128)
   || (a =? 226) && (b =? 128)
      && ((128 <=? c) && (c <=? 138) || (c =? 168) || (c =? 169) || (c =? 175))
   || (a =? 226) && (b =? 129) && (c =? 159)
   || (a =? 227) && (b =? 128) && (c =? 128))%N.

Fixpoint lstrip (s : string) : string :=
  match s with
  | EmptyString => EmptyString
  | String c1 s1 =>
      if is_space1 c1 then lstrip s1
      else match s1 with
           | EmptyString => s
           | String c2 s2 =>
               if is_space2 c1 c2 then lstrip s2
               else match s2 with
                    | EmptyString => s
                    | String c3 s3 =>
                        if is_space3 c1 c2 c3 then lstrip s3 else s
                    end
           end
  end.

Fixpoint string_rev_onto (s acc : string) : string :=
  match s with
  | EmptyString => acc
  | String c s' => string_rev_onto s' (String c acc)
  end.

Definition string_rev (s : string) : string := string_rev_onto s EmptyString.

(** The same scan from the right end, on the reversed string. *)
Fixpoint lstrip_rev (s : string) : string :=
  match s with
  | EmptyString => EmptyString
  | String c1 s1 =>
      if is_space1 c1 then lstrip_rev s1
      else match s1 with
           | EmptyString => s
           | String c2 s2 =>
               if is_space2 c2 c1 then lstrip_rev s2
               else match s2 with
                    | EmptyString => s
                    | String c3 s3 =>
                        if is_space3 c3 c2 c1 then lstrip_rev s3 else s
                    end
           end
  end.

Definition rstrip (s : string) : string := string_rev (lstrip_rev (string_rev s)).

(** [s.strip()]. *)
Definition strip (s : string) : string := rstrip (lstrip s).

(** A byte [10xxxxxx] continues a character. *)
Definition is_continuation (c : ascii) : bool :=
  ((128 <=? byte_of c) && (byte_of c <=? 191))%N.

(** The characters of a [str], each as a [str] of its own. *)
Fixpoint str_chars (s : string) : list string :=
  match s with
  | EmptyString => []
  | String c s' =>
      match s' with
      | EmptyString => [String c EmptyString]
      | String c' _ =>
          if is_continuation c' then
            match str_chars s' with
            | g :: gs => String c g :: gs
            | [] => [String c EmptyString]
            end
          else String c EmptyString :: str_chars s'
      end
  end.

(** [iter(v)]: the items a [for] loop over [v] visits. *)
Definition py_iter (v : pyval) : outcome (list pyval) :=
  match v with
  | PList l => Ret l
  | PStr s => Ret (map PStr (str_chars s))
  | PDict d => Ret (map (fun kv => PStr (fst kv)) d)
  | _ => Raise TypeError
  end.

(** *** Comparisons *)

(** A number as [m * 2^e]; [bool] is a subclass of [int]. *)
Definition py_num (v : pyval) : option (Z * Z) :=
  match v with
  | PBool b => Some (if b then 1 else 0, 0)
  | PInt n => Some (n, 0)
  | PFloat m e => Some (m, e)
  | _ => None
  end.

Definition num_compare (a b : Z * Z) : comparison :=
  let e := Z.min (snd a) (snd b) in
  Z.compare (fst a * 2 ^ (snd a - e)) (fst b * 2 ^ (snd b - e)).

(** [a == b]. *)
Fixpoint py_eq (a b : pyval) : bool :=
  match py_num a, py_num b with
  | Some x, Some y => match num_compare x y with Eq => true | _ => false end
  | _, _ =>
      match a, b with
      | PNone, PNone => true
      | PStr s, PStr t => String.eqb s t
      | PList l, PList r =>
          (fix all2 (l r : list pyval) : bool :=
             match l, r with
             | [], [] => true
             | x :: l', y :: r' => py_eq x y && all2 l' r'
             | _, _ => false
             end) l r
      | PDict d, PDict d2 =>
          (length d =? length d2)%nat
          && (fix sub (d : pydict) : bool :=
                match d with
                | [] => true
                | (k, v) :: d' =>
                    match dict_get d2 k with
                    | Some w => py_eq v w && sub d'
                    | None => false
                    end
                end) d
      | _, _ => false
      end
  end.

(** [a < b]: defined between numbers, between strings (by code point,
    which is the order of the UTF-8 bytes) and between lists; any other
    pair raises [TypeError]. *)
Fixpoint py_lt (a b : pyval) : outcome bool :=
  match py_num a, py_num b with
  | Some x, Some y => Ret (match num_compare x y with Lt => true | _ => false end)
  | _, _ =>
      match a, b with
      | PStr s, PStr t => Ret (String.ltb s t)
      | PList l, PList r =>
          (fix lex (l r : list pyval) : outcome bool :=
             match l, r with
             | [], [] => Ret false
             | [], _ :: _ => Ret true
             | _ :: _, [] => Ret false
             | x :: l', y :: r' => if py_eq x y then lex l' r' else py_lt x y
             end) l r
      | _, _ => Raise TypeError
      end
  end.

(** A message record that [normalize_message] has let through: a dict. *)
Abbreviation NormalizedMessage := (list (string * pyval)).

(** ** The two external collaborators

    [datetime.strptime(value, "%Y-%m-%dT%H:%M:%S%z")] is library code: the
    model takes it as a function from the text to the parsed instant (an
    aware datetime, as [%z] is part of the format, kept as its UTC
    instant in microseconds since 1970-01-01T00:00:00Z, which is all that
    comparing two aware datetimes looks at), or [None] where the library
    raises [ValueError]. *)
Class TimeParser := strptime : string -> option Z.

(** One call of [requests.get(url, headers=..., params=..., timeout=30)]
    followed by [raise_for_status()] and [response.json()]. *)
Record request := {
  req_url : pyval;
  req_headers : list (string * string);
  req_params : option (list (string * string));
  req_timeout : Z
}.

(** [RequestException exc]: [requests.get] or [raise_for_status] raised a
    [requests.RequestException] printing as [exc].  [Response None]: the
    body is not JSON ([response.json()] raised [ValueError]).
    [Response (Some payload)]: the parsed body. *)
Inductive http_result : Type :=
  | RequestException (exc : string)
  | Response (json : option pyval).

(** The remote side: a state and its answer to one request. *)
Class Transport := {
  World : Type;
  http_get : request -> World -> http_result * World
}.

(** What a run leaves behind, in order: a request sent with its answer,
    a line printed on stderr, a page yielded by [iter_conversation_pages],
    a message yielded by [iter_enriched_messages]. *)
Inductive event : Type :=
  | EFetch (rq : request) (response : http_result)
  | EStderr (line : string)
  | EPage (page : list pyval * pyval)
  | EYield (msg : NormalizedMessage).

(** The requests of a trace, the pages and the messages it yields. *)
Definition fetches (tr : list event) : list request :=
  omap (fun ev => match ev with EFetch rq _ => Some rq | _ => None end) tr.

Definition pages (tr : list event) : list (list pyval * pyval) :=
  omap (fun ev => match ev with EPage p => Some p | _ => None end) tr.

Definition yields (tr : list event) : list NormalizedMessage :=
  omap (fun ev => match ev with EYield m => Some m | _ => None end) tr.

Section Model.
Context {TP : TimeParser} {T : Transport}.

(** Code that talks to the remote side and prints: from the state of the
    world to a result, the new state and the events of the run. *)
Definition M (A : Type) : Type := World -> outcome A * World * list event.

Definition ret {A} (a : A) : M A := fun w => (Ret a, w, []).

Definition bind {A B} (m : M A) (f : A -> M B) : M B :=
  fun w =>
    match m w with
    | (Ret a, w1, t1) =>
        match f a w1 with
        | (r, w2, t2) => (r, w2, t1 ++ t2)
        end
    | (Raise e, w1, t1) => (Raise e, w1, t1)
    | (OutOfFuel, w1, t1) => (OutOfFuel, w1, t1)
    end.

Definition lift {A} (o : outcome A) : M A := fun w => (o, w, []).

Definition emit (ev : event) : M unit := fun w => (Ret tt, w, [ev]).

(** [print(line, file=sys.stderr)]. *)
Definition print_stderr (line : string) : M unit := emit (EStderr line).

Definition send (rq : request) : M http_result :=
  fun w => match http_get rq w with (r, w') => (Ret r, w', [EFetch rq r]) end.

End Model.

Notation "'let*' x ':=' m 'in' k" := (bind m (fun x => k))
  (at level 10, x name, m at level 100, k at level 200).
Notation "m1 ';;' m2" := (bind m1 (fun _ => m2))
  (at level 100, m2 at level 200, right associativity).

Section Ordering.
Context {TP : TimeParser}.

Definition EPOCH : Z := 0.

(** [parse_created_time]: [strptime] wants a [str] and raises [TypeError]
    on anything else, which [except ValueError] does not catch. *)
Definition parse_created_time (value : pyval) : outcome (option Z) :=
  if negb (truthy value) then Ret None
  else match value with
       | PStr s => Ret (strptime s)
       | _ => Raise TypeError
       end.

(** The key of [iter_enriched_messages] and of [fetch_page]:
    [(parse_created_time(msg.get("created_time")) or EPOCH, msg.get("id", ""))].
    A datetime is always true, so [or] replaces [None] only. *)
Definition key (msg : NormalizedMessage) : outcome (Z * pyval) :=
  let? parsed := parse_created_time (dict_get_none msg "created_time") in
  Ret (match parsed with Some dt => dt | None => EPOCH end,
       dict_get_default msg "id" (PStr "")).

(** [a < b] on two key tuples: the first components that differ under [==]
    are compared with [<]. *)
Definition key_lt (a b : Z * pyval) : outcome bool :=
  if negb (fst a =? fst b) then Ret (fst a <? fst b)
  else if py_eq (snd a) (snd b) then Ret false
  else py_lt (snd a) (snd b).

Definition key_ltb (a b : Z * pyval) : bool :=
  match key_lt a b with Ret true => true | _ => false end.

Definition comparable (a b : Z * pyval) : bool :=
  match key_lt a b, key_lt b a with
  | Ret _, Ret _ => true
  | _, _ => false
  end.

Fixpoint pairwise_comparable (ks : list (Z * pyval)) : bool :=
  match ks with
  | [] => true
  | k :: ks' => forallb (comparable k) ks' && pairwise_comparable ks'
  end.

Fixpoint map_outcome {A B} (f : A -> outcome B) (l : list A) : outcome (list B) :=
  match l with
  | [] => Ret []
  | x :: l' =>
      let? y := f x in
      let? ys := map_outcome f l' in
      Ret (y :: ys)
  end.

(** Stable insertion with [<] only: [x] stood before every element of [l]
    and goes before the first element that is not smaller than it. *)
Fixpoint insert_keyed {A} (x : (Z * pyval) * A) (l : list ((Z * pyval) * A))
  : list ((Z * pyval) * A) :=
  match l with
  | [] => [x]
  | y :: l' => if key_ltb (fst y) (fst x) then y :: insert_keyed x l' else x :: l
  end.

Definition stable_sort {A} (l : list ((Z * pyval) * A)) : list ((Z * pyval) * A) :=
  fold_right insert_keyed [] l.

(** [l.sort(key=keyf, reverse=reverse)].  The keys are computed first, in
    list order.  The sort is stable, and [reverse] reverses the list
    before and after an ascending stable sort.  Which pairs CPython
    compares is not modelled: the model raises [TypeError] as soon as two
    keys of the list cannot be compared, so [Ret] here is the list
    [l.sort] leaves, and [Raise] says only that [l.sort] can raise. *)
Definition list_sort {A} (keyf : A -> outcome (Z * pyval)) (reverse : bool)
    (l : list A) : outcome (list A) :=
  let? keys := map_outcome keyf l in
  if pairwise_comparable keys then
    let keyed := combine keys l in
    let keyed := if reverse then rev keyed else keyed in
    let sorted := stable_sort keyed in
    Ret (map snd (if reverse then rev sorted else sorted))
  else Raise TypeError.

End Ordering.

(** ** Text extraction *)

(** [_from_candidate] of [extract_message_text]. *)
Definition _from_candidate (candidate : pyval) : option string :=
  match candidate with
  | PStr s =>
      let text := strip s in
      if negb (String.eqb text "") then Some text else None
  | _ => None
  end.

(** [for key in keys: text = _from_candidate(d.get(key)); if text: return text]. *)
Fixpoint probe_keys (d : pydict) (keys : list string) : option string :=
  match keys with
  | [] => None
  | k :: keys' =>
      match _from_candidate (dict_get_none d k) with
      | Some text => Some text
      | None => probe_keys d keys'
      end
  end.

Definition TEXT_KEYS : list string := ["text"; "body"; "message"].

(** The loop over the attachment entries. *)
Fixpoint probe_attachments (items : list pyval) : option string :=
  match items with
  | [] => None
  | PDict item :: rest =>
      match _from_candidate (dict_get_none item "text") with
      | Some text => Some text
      | None =>
          match dict_get_none item "payload" with
          | PDict payload =>
              match probe_keys payload TEXT_KEYS with
              | Some text => Some text
              | None => probe_attachments rest
              end
          | _ => probe_attachments rest
          end
      end
  | _ :: rest => probe_attachments rest
  end.

Definition extract_message_text (data : pydict) : outcome (option string) :=
  match _from_candidate (dict_get_none data "message") with
  | Some direct => Ret (Some direct)
  | None =>
      let text_field := dict_get_none data "text" in
      let from_text_field :=
        match text_field with
        | PStr _ => _from_candidate text_field
        | PDict d => probe_keys d TEXT_KEYS
        | _ => None
        end in
      match from_text_field with
      | Some text => Ret (Some text)
      | None =>
          match dict_get_none data "attachments" with
          | PDict attachments =>
              let? items := py_iter (dict_get_default attachments "data" (PList [])) in
              Ret (probe_attachments items)
          | _ => Ret None
          end
      end
  end.

Section Engine.
Context {TP : TimeParser} {T : Transport}.

(** ** Normalization *)

Definition normalize_message (message : pyval) : M (option NormalizedMessage) :=
  match message with
  | PDict d =>
      let message_id := dict_get_none d "id" in
      if negb (truthy message_id) then
        print_stderr "  skipping message without an id" ;; ret None
      else ret (Some d)
  | _ => ret None
  end.

(** [for message in page_messages: normalized = normalize_message(message);
    if normalized is not None: acc.append(normalized)]. *)
Fixpoint normalize_into (acc : list NormalizedMessage) (page_messages : list pyval)
  : M (list NormalizedMessage) :=
  match page_messages with
  | [] => ret acc
  | message :: rest =>
      let* normalized := normalize_message message in
      match normalized with
      | Some d => normalize_into (acc ++ [d]) rest
      | None => normalize_into acc rest
      end
  end.

(** ** The page fetcher *)

Definition MESSAGE_FIELDS : string := "id,from,to,message,created_time".

(** [CONVERSATION_MESSAGES_URL_TEMPLATE.format(conversation_id=...)]. *)
Definition conversation_messages_url (conversation_id : string) : string :=
  "https://graph.instagram.com/v22.0/" +:+ conversation_id +:+ "/messages".

(** [d[k] = v] on a dict of strings. *)
Fixpoint sdict_set (d : list (string * string)) (k v : string)
  : list (string * string) :=
  match d with
  | [] => [(k, v)]
  | (k', v') :: d' =>
      if String.eqb k' k then (k', v) :: d' else (k', v') :: sdict_set d' k v
  end.

(** [d.update(other)]. *)
Definition sdict_update (d other : list (string * string)) : list (string * string) :=
  fold_left (fun acc kv => sdict_set acc (fst kv) (snd kv)) other d.

(** The request [fetch_conversation_page] sends. *)
Definition page_request (conversation_id token : string) (page_url : pyval)
    (params : option (list (string * string))) : request :=
  let url := if truthy page_url then page_url
             else PStr (conversation_messages_url conversation_id) in
  let headers := [("Authorization", "Bearer " +:+ token)] in
  let effective_params :=
    match page_url with
    | PNone =>
        let effective_params := [("fields", MESSAGE_FIELDS)] in
        Some (match params with
              | Some (p :: ps) => sdict_update effective_params (p :: ps)
              | _ => effective_params
              end)
    | _ => None
    end in
  {| req_url := url; req_headers := headers;
     req_params := effective_params; req_timeout := 30 |}.

(** What [fetch_conversation_page] reads in the parsed body. *)
Definition page_of_payload (payload : pyval) : outcome (list pyval * pyval) :=
  let? container := py_get payload "messages" payload in
  let? data := py_get container "data" (PList []) in
  let data := match data with PList l => l | _ => [] end in
  let? paging := py_get container "paging" (PDict []) in
  let paging := py_or paging (PDict []) in
  Ret (data, paging).

(** [fetch_conversation_page]: [None] stands for the pair [(None, None)]. *)
Definition fetch_conversation_page (conversation_id token : string)
    (page_url : pyval) (params : option (list (string * string)))
  : M (option (list pyval * pyval)) :=
  let* response := send (page_request conversation_id token page_url params) in
  match response with
  | RequestException exc =>
      print_stderr ("error: failed to fetch conversation " +:+ conversation_id
                    +:+ ": " +:+ exc) ;;
      ret None
  | Response None =>
      print_stderr ("error: conversation " +:+ conversation_id
                    +:+ " did not return JSON") ;;
      ret None
  | Response (Some payload) =>
      let* page := lift (page_of_payload payload) in
      ret (Some page)
  end.

(** ** One-pass streaming traversal *)

(** The [while True] loop of [iter_conversation_pages], with its local
    variables as arguments.  The generator is consumed by a [for] loop:
    [body] is the body of that loop, run at each [yield] on the state [s]
    of the consumer.  [fuel] bounds the number of iterations. *)
Fixpoint pages_loop {S : Type} (fuel : nat) (conversation_id token : string)
    (page_limit : Z) (body : S -> list pyval * pyval -> M S)
    (url : pyval) (params : option (list (string * string))) (page_count : Z)
    (s : S) : M S :=
  match fuel with
  | O => lift OutOfFuel
  | Datatypes.S fuel' =>
      if negb (page_limit =? 0) && (page_count >=? page_limit) then ret s
      else
        let* page := fetch_conversation_page conversation_id token url params in
        match page with
        | None => ret s
        | Some (data, paging) =>
            let* s' := body s (data, paging) in
            let page_count := page_count + 1 in
            let* url := lift (py_get paging "next" PNone) in
            let params := None in
            if negb (truthy url) then ret s'
            else pages_loop fuel' conversation_id token page_limit body
                   url params page_count s'
        end
  end.

(** [for page in iter_conversation_pages(...): s = body(s, page)]. *)
Definition for_conversation_pages {S : Type} (conversation_id token : string)
    (page_limit : Z) (fuel : nat) (body : S -> list pyval * pyval -> M S)
    (s : S) : M S :=
  pages_loop fuel conversation_id token page_limit body PNone (Some []) 0 s.

(** The generator on its own, driven to its end: each [yield] is an
    [EPage] event. *)
Definition iter_conversation_pages (conversation_id token : string)
    (page_limit : Z) (fuel : nat) : M unit :=
  for_conversation_pages conversation_id token page_limit fuel
    (fun _ page => emit (EPage page)) tt.

(** [for message in l: yield message]. *)
Fixpoint yield_all (l : list NormalizedMessage) : M unit :=
  match l with
  | [] => ret tt
  | message :: rest => emit (EYield message) ;; yield_all rest
  end.

Definition iter_enriched_messages (conversation_id token order : string)
    (page_limit : Z) (fuel : nat) : M unit :=
  if String.eqb order "asc" then
    let* collected :=
      for_conversation_pages conversation_id token page_limit fuel
        (fun collected page => normalize_into collected (fst page)) [] in
    match collected with
    | [] => ret tt
    | _ =>
        let* collected := lift (list_sort key false collected) in
        yield_all collected
    end
  else
    for_conversation_pages conversation_id token page_limit fuel
      (fun _ page =>
         let* detailed_page := normalize_into [] (fst page) in
         match detailed_page with
         | [] => ret tt
         | _ =>
             let* detailed_page := lift (list_sort key true detailed_page) in
             yield_all detailed_page
         end) tt.

(** ** The caching pager *)

Record ConversationPage := {
  identifier : option string;
  messages : list NormalizedMessage;
  next_url : pyval;
  previous_url : pyval
}.

Record ConversationPager := {
  _conversation_id : string;
  _token : string;
  _order : string;
  _page_limit : Z;
  _cache : gmap (option string) ConversationPage;
  _fetched : Z
}.

(** [ConversationPager.__init__]. *)
Definition ConversationPager_init (conversation_id token order : string)
    (page_limit : Z) : ConversationPager :=
  {| _conversation_id := conversation_id;
     _token := token;
     _order := order;
     _page_limit := Z.max page_limit 0;
     _cache := ∅;
     _fetched := 0 |}.

Definition cursor_value (page_url : option string) : pyval :=
  match page_url with Some u => PStr u | None => PNone end.

(** [ConversationPager.fetch_page]: the page or [None], and the pager as
    the call leaves it. *)
Definition fetch_page (self : ConversationPager) (page_url : option string)
  : M (option ConversationPage * ConversationPager) :=
  let key_ := page_url in
  match _cache self !! key_ with
  | Some page => ret (Some page, self)
  | None =>
      if negb (_page_limit self =? 0) && (_fetched self >=? _page_limit self)
         && negb (bool_decide (is_Some (_cache self !! key_)))
      then ret (None, self)
      else
        let* fetched :=
          fetch_conversation_page (_conversation_id self) (_token self)
            (cursor_value page_url) None in
        match fetched with
        | None => ret (None, self)
        | Some (messages, paging) =>
            let* detailed := normalize_into [] messages in
            let reverse := String.eqb (_order self) "desc" in
            let* detailed := lift (list_sort key reverse detailed) in
            let page :=
              {| identifier := page_url;
                 messages := detailed;
                 next_url := match paging with
                             | PDict d => dict_get_none d "next"
                             | _ => PNone
                             end;
                 previous_url := match paging with
                                 | PDict d => dict_get_none d "previous"
                                 | _ => PNone
                                 end |} in
            ret (Some page,
                 {| _conversation_id := _conversation_id self;
                    _token := _token self;
                    _order := _order self;
                    _page_limit := _page_limit self;
                    _cache := <[key_ := page]> (_cache self);
                    _fetched := _fetched self + 1 |})
        end
  end.

End Engine.

(** ** The conversation identifiers of a run *)

(** The arguments [iter_conversation_ids] reads. *)
Record Namespace := {
  ids : list string;
  ids_file : option string
}.

(** What reading a text file line by line gives: the lines the handle
    hands out, then the end of the file or the [OSError] that [open] or
    a read raised, with its text.  The file is taken to hold UTF-8 text:
    a decoding error is no [OSError], and is left out. *)
Definition file_reading : Type := list string * option string.

(** [for line in handle: conversation_id = line.strip(); if
    conversation_id: yield conversation_id]. *)
Fixpoint ids_of_lines (lines : list string) : list string :=
  match lines with
  | [] => []
  | line :: rest =>
      let conversation_id := strip line in
      if negb (String.eqb conversation_id "") then
        conversation_id :: ids_of_lines rest
      else ids_of_lines rest
  end.

(** [iter_conversation_ids]: the identifiers yielded and the lines
    printed on the error stream. *)
Definition iter_conversation_ids (open_ : string -> file_reading)
    (args : Namespace) : list string * list string :=
  let from_args := match ids args with [] => [] | _ => ids args end in
  match ids_file args with
  | None => (from_args, [])
  | Some path =>
      if String.eqb path "" then (from_args, [])
      else
        let (lines, failure) := open_ path in
        (from_args ++ ids_of_lines lines,
         match failure with
         | Some exc => ["error: could not read ids file: " +:+ exc]
         | None => []
         end)
  end.

(** ** The keys of the page history *)

(** [ConversationPanel._key_for_identifier]. *)
Definition _key_for_identifier (identifier : option string) : string :=
  match identifier with
  | Some s => if negb (String.eqb s "") then s else "__root__"
  | None => "__root__"
  end.

(** [ConversationPanel._identifier_from_key]. *)
Definition _identifier_from_key (key_ : option string) : option string :=
  match key_ with
  | None => None
  | Some k =>
      if String.eqb k "" || String.eqb k "__root__" then None else Some k
  end.

(** ** Notions of the specification *)

Section Notions.
Context {TP : TimeParser}.

(** A record is a mapping carrying a non-empty identifier. *)
Definition has_identifier (r : pyval) : Prop :=
  exists d v, r = PDict d /\ dict_get d "id" = Some v /\ truthy v = true.

Definition is_mapping (r : pyval) : bool :=
  match r with PDict _ => true | _ => false end.

(** The NormalizedMessage of a record, if it has one. *)
Definition normalized (r : pyval) : option NormalizedMessage :=
  match r with
  | PDict d => if truthy (dict_get_none d "id") then Some d else None
  | _ => None
  end.

(** The notice printed for a record that is rejected. *)
Definition rejection_notice (r : pyval) : list event :=
  match r with
  | PDict d =>
      if truthy (dict_get_none d "id") then []
      else [EStderr "  skipping message without an id"]
  | _ => []
  end.

(** The NormalizedMessages of a page, in page order. *)
Definition page_messages (page : list pyval * pyval) : list NormalizedMessage :=
  omap normalized (fst page).

(** The creation timestamp of a message when it has one that parses. *)
Definition parsed_timestamp (msg : NormalizedMessage) : option Z :=
  match dict_get msg "created_time" with
  | Some (PStr s) => if String.eqb s "" then None else strptime s
  | _ => None
  end.

(** The Ordering Key: (timestamp or epoch sentinel, identifier or empty
    string). *)
Definition ordering_key (msg : NormalizedMessage) : Z * string :=
  (match parsed_timestamp msg with Some t => t | None => EPOCH end,
   match dict_get msg "id" with Some (PStr s) => s | _ => "" end).

(** Its order: timestamp ascending, then identifier ascending. *)
Definition ordering_key_ltb (a b : Z * string) : bool :=
  (fst a <? fst b) || ((fst a =? fst b) && String.ltb (snd a) (snd b)).

Definition ordering_key_le (a b : Z * string) : Prop :=
  ordering_key_ltb b a = false.

Definition ascending (l : list NormalizedMessage) : Prop :=
  StronglySorted (fun a b => ordering_key_le (ordering_key a) (ordering_key b)) l.

Definition descending (l : list NormalizedMessage) : Prop :=
  StronglySorted (fun a b => ordering_key_le (ordering_key b) (ordering_key a)) l.

(** The messages of [l] that carry the Ordering Key [k], in the order of
    [l]: a stable sort leaves each of these lists as it was. *)
Definition with_key (k : Z * string) (l : list NormalizedMessage)
  : list NormalizedMessage :=
  List.filter (fun m => bool_decide (ordering_key m = k)) l.

(** The stable sort by Ordering Key, ascending, and its descending
    counterpart. *)
Fixpoint insert_message (x : NormalizedMessage) (l : list NormalizedMessage)
  : list NormalizedMessage :=
  match l with
  | [] => [x]
  | y :: l' =>
      if ordering_key_ltb (ordering_key y) (ordering_key x)
      then y :: insert_message x l'
      else x :: l
  end.

Definition sort_ascending (l : list NormalizedMessage) : list NormalizedMessage :=
  fold_right insert_message [] l.

Definition sort_messages (reverse : bool) (l : list NormalizedMessage)
  : list NormalizedMessage :=
  if reverse then rev (sort_ascending (rev l)) else sort_ascending l.

(** The messages whose fields have the types the key expects: a creation
    timestamp that is absent, false or a string, and a string
    identifier. *)
Definition str_keyed (msg : NormalizedMessage) : bool :=
  match dict_get msg "created_time" with
  | None | Some (PStr _) => true
  | Some v => negb (truthy v)
  end
  && match dict_get msg "id" with
     | None | Some (PStr _) => true
     | Some _ => false
     end.

(** A transport failure: the request raised, or the body is not JSON. *)
Definition failed (response : http_result) : bool :=
  match response with
  | RequestException _ | Response None => true
  | Response (Some _) => false
  end.

(** The key tuple the program builds for a message with well-typed
    fields. *)
Definition python_key (m : NormalizedMessage) : Z * pyval :=
  (fst (ordering_key m), PStr (snd (ordering_key m))).

Definition keyed (m : NormalizedMessage) : (Z * pyval) * NormalizedMessage :=
  (python_key m, m).

(** What [fetch_conversation_page] returns for an answer of the remote
    side, and the notice it prints. *)
Definition fetch_outcome (response : http_result)
  : outcome (option (list pyval * pyval)) :=
  match response with
  | RequestException _ | Response None => Ret None
  | Response (Some payload) =>
      let? page := page_of_payload payload in
      Ret (Some page)
  end.

Definition failure_notice (conversation_id : string) (response : http_result)
  : list event :=
  match response with
  | RequestException exc =>
      [EStderr ("error: failed to fetch conversation " +:+ conversation_id
                +:+ ": " +:+ exc)]
  | Response None =>
      [EStderr ("error: conversation " +:+ conversation_id
                +:+ " did not return JSON")]
  | Response (Some _) => []
  end.

(** A trace of [iter_conversation_pages] in which a consumer that prints
    [ev page] at each page has taken the place of the [yield]. *)
Definition substitute (ev : list pyval * pyval -> list event) (e : event)
  : list event :=
  match e with
  | EPage page => ev page
  | _ => [e]
  end.

(** The candidates of text extraction in probing order: (a) the direct
    text field; (b) the text container, a plain string or a mapping
    probed for its sub-keys; (c) for each attachment entry, its own text
    field, then its payload probed for the same sub-keys. *)
Definition container_candidates (v : pyval) : list pyval :=
  match v with
  | PStr _ => [v]
  | PDict d => map (dict_get_none d) TEXT_KEYS
  | _ => []
  end.

Definition payload_candidates (v : pyval) : list pyval :=
  match v with
  | PDict d => map (dict_get_none d) TEXT_KEYS
  | _ => []
  end.

Definition attachment_candidates (item : pyval) : list pyval :=
  match item with
  | PDict d => dict_get_none d "text" :: payload_candidates (dict_get_none d "payload")
  | _ => []
  end.

Definition attachment_entries (data : pydict) : outcome (list pyval) :=
  match dict_get_none data "attachments" with
  | PDict attachments => py_iter (dict_get_default attachments "data" (PList []))
  | _ => Ret []
  end.

Definition candidates (data : pydict) (entries : list pyval) : list pyval :=
  dict_get_none data "message"
  :: container_candidates (dict_get_none data "text")
  ++ flat_map attachment_candidates entries.

(** A candidate counts when it is a string that is not empty once
    trimmed; its text is the trimmed string. *)
Definition trimmed (candidate : pyval) : option string :=
  match candidate with
  | PStr s => if String.eqb (strip s) "" then None else Some (strip s)
  | _ => None
  end.

Definition first_text (cands : list pyval) : option string :=
  head (omap trimmed cands).

End Notions.

Section PagerNotions.
Context {TP : TimeParser} {T : Transport}.

(** The states a pager goes through in its lifetime: the one [__init__]
    builds, and the one each call of [fetch_page] that returns leaves.  A
    call that raises leaves the pager as it was. *)
Inductive reachable (init : ConversationPager) : ConversationPager -> Prop :=
  | reachable_init : reachable init init
  | reachable_call self page_url w result self' w' tr :
      reachable init self ->
      fetch_page self page_url w = (Ret (result, self'), w', tr) ->
      reachable init self'.

(** The page [fetch_page] builds from what the fetcher returned. *)
Definition page_of (page_url : option string) (sorted : list NormalizedMessage)
    (paging : pyval) : ConversationPage :=
  {| identifier := page_url;
     messages := sorted;
     next_url := match paging with
                 | PDict d => dict_get_none d "next"
                 | _ => PNone
                 end;
     previous_url := match paging with
                     | PDict d => dict_get_none d "previous"
                     | _ => PNone
                     end |}.

(** The pager after it has cached [page] under [page_url]. *)
Definition with_page (self : ConversationPager) (page_url : option string)
    (page : ConversationPage) : ConversationPager :=
  {| _conversation_id := _conversation_id self;
     _token := _token self;
     _order := _order self;
     _page_limit := _page_limit self;
     _cache := <[page_url := page]> (_cache self);
     _fetched := _fetched self + 1 |}.

(** The ceiling test of [fetch_page]. *)
Definition ceiling_reached (self : ConversationPager) : bool :=
  negb (_page_limit self =? 0) && (_fetched self >=? _page_limit self).

End PagerNotions.

Section RunNotions.
Context {TP : TimeParser} {T : Transport}.

(** The ways a call of [fetch_page] returns. *)
Inductive fetch_page_case (self : ConversationPager) (c : option string)
    (w : World) : option ConversationPage -> ConversationPager -> World ->
    list event -> Prop :=
  | case_hit page :
      _cache self !! c = Some page ->
      fetch_page_case self c w (Some page) self w []
  | case_ceiling :
      _cache self !! c = None -> ceiling_reached self = true ->
      fetch_page_case self c w None self w []
  | case_failure w' rq res notice :
      _cache self !! c = None -> ceiling_reached self = false ->
      fetch_page_case self c w None self w' (EFetch rq res :: notice)
  | case_fetched page w' rq res notices :
      _cache self !! c = None -> ceiling_reached self = false ->
      fetches notices = [] ->
      fetch_page_case self c w (Some page) (with_page self c page) w'
        (EFetch rq res :: notices).

(** The count of fetched pages is the number of cached pages. *)
Definition pager_invariant (self : ConversationPager) : Prop :=
  _fetched self = Z.of_nat (size (_cache self)).

(** An event that yields nothing but messages with an identifier. *)
Definition identified_event (e : event) : Prop :=
  match e with
  | EYield m => has_identifier (PDict m)
  | _ => True
  end.

(** A pager whose cached pages hold only messages with an identifier. *)
Definition cache_identified (self : ConversationPager) : Prop :=
  forall c page, _cache self !! c = Some page ->
    Forall (fun m => has_identifier (PDict m)) (messages page).

(** The loop of [iter_conversation_pages] run as the generator, from any
    of its states. *)
Definition generator fuel cid token pl url params count : M unit :=
  pages_loop fuel cid token pl (fun _ page => emit (EPage page))
    url params count tt.

Definition not_yield (e : event) : Prop :=
  match e with EYield _ => False | _ => True end.

(** The notices a consumer prints while it normalizes a page. *)
Definition page_notices (page : list pyval * pyval) : list event :=
  flat_map rejection_notice page.1.

(** What a page contributes in descending mode. *)
Definition page_descending (page : list pyval * pyval) : list event :=
  page_notices page ++ map EYield (sort_messages true (page_messages page)).

End RunNotions.

(** ** Notions of the further properties *)

(** The string starts with no white space character, as [lstrip] scans
    it. *)
Definition starts_clean (s : string) : bool :=
  match s with
  | EmptyString => true
  | String c1 s1 =>
      negb (is_space1 c1)
      && match s1 with
         | EmptyString => true
         | String c2 s2 =>
             negb (is_space2 c1 c2)
             && match s2 with
                | EmptyString => true
                | String c3 _ => negb (is_space3 c1 c2 c3)
                end
         end
  end.

Section OrderNotions.
Context {TP : TimeParser} {T : Transport}.

(** The messages of a page are in the order of the pager: descending
    when the pager was built for ["desc"], ascending for any other
    order. *)
Definition page_in_order (order : string) (page : ConversationPage) : Prop :=
  if String.eqb order "desc" then descending (messages page)
  else ascending (messages page).

(** A pager whose cached pages carry the cursor they are cached under
    and, when their messages have well-typed keys, hold them in the
    order of the pager. *)
Definition cache_ordered (self : ConversationPager) : Prop :=
  forall c page, _cache self !! c = Some page ->
    identifier page = c
    /\ (Forall (fun m => str_keyed m = true) (messages page) ->
        page_in_order (_order self) page).

End OrderNotions.

(** ** Instances of the collaborators *)

Module Fixtures.

(** A parser for the canonical spelling [YYYY-MM-DDTHH:MM:SS+HHMM] (ASCII
    digits, every field at full width).  On a string of that shape it
    returns what [strptime] returns with the format of the program; the
    library also reads a few other spellings, which this parser
    rejects. *)
Definition digit (c : ascii) : option Z :=
  let n := Z.of_N (N_of_ascii c) in
  if (48 <=? n) && (n <=? 57) then Some (n - 48) else None.

Fixpoint digits (n : nat) (acc : Z) (s : string) : option (Z * string) :=
  match n with
  | O => Some (acc, s)
  | Datatypes.S n' =>
      match s with
      | String c s' =>
          match digit c with
          | Some d => digits n' (10 * acc + d) s'
          | None => None
          end
      | EmptyString => None
      end
  end.

Definition expect (c : ascii) (s : string) : option string :=
  match s with
  | String c' s' => if Ascii.eqb c c' then Some s' else None
  | EmptyString => None
  end.

Definition is_leap (y : Z) : bool :=
  ((y mod 4 =? 0) && negb (y mod 100 =? 0)) || (y mod 400 =? 0).

Definition days_in_month (y m : Z) : Z :=
  if m =? 2 then (if is_leap y then 29 else 28)
  else if (m =? 4) || (m =? 6) || (m =? 9) || (m =? 11) then 30
  else 31.

(** Days from 1970-01-01 to the civil date [y-m-d]. *)
Definition days_from_civil (y m d : Z) : Z :=
  let y' := if m <=? 2 then y - 1 else y in
  let era := y' / 400 in
  let yoe := y' - era * 400 in
  let mp := (m + 9) mod 12 in
  let doy := (153 * mp + 2) / 5 + d - 1 in
  let doe := yoe * 365 + yoe / 4 - yoe / 100 + doy in
  era * 146097 + doe - 719468.

Definition sign (s : string) : option (Z * string) :=
  match s with
  | String c s' =>
      if Ascii.eqb c "+" then Some (1, s')
      else if Ascii.eqb c "-" then Some (-1, s')
      else None
  | EmptyString => None
  end.

Definition strptime_canonical (s : string) : option Z :=
  '(y, s) ← digits 4 0 s;
  s ← expect "-" s;
  '(m, s) ← digits 2 0 s;
  s ← expect "-" s;
  '(d, s) ← digits 2 0 s;
  s ← expect "T" s;
  '(hh, s) ← digits 2 0 s;
  s ← expect ":" s;
  '(mi, s) ← digits 2 0 s;
  s ← expect ":" s;
  '(ss, s) ← digits 2 0 s;
  '(sg, s) ← sign s;
  '(oh, s) ← digits 2 0 s;
  '(om, s) ← digits 2 0 s;
  if String.eqb s ""
     && (1 <=? y) && (1 <=? m) && (m <=? 12)
     && (1 <=? d) && (d <=? days_in_month y m)
     && (hh <=? 23) && (mi <=? 59) && (ss <=? 59)
     && (oh <=? 23) && (om <=? 59)
  then
    let local := days_from_civil y m d * 86400 + hh * 3600 + mi * 60 + ss in
    Some ((local - sg * (oh * 3600 + om * 60)) * 1000000)
  else None.

Definition canonical_parser : TimeParser := strptime_canonical.

(** A remote side that plays a script: the answers to the requests, in
    the order the requests arrive, then a refused connection. *)
Definition scripted : Transport :=
  {| World := list http_result;
     http_get := fun _ w =>
       match w with
       | [] => (RequestException "connection refused", [])
       | r :: w' => (r, w')
       end |}.

(** A message with an identifier and a creation timestamp, and the
    record the remote side sends for it. *)
Definition stamped (id_ created_time : string) : NormalizedMessage :=
  [("id", PStr id_); ("created_time", PStr created_time)].

Definition msg (id_ created_time : string) : pyval :=
  PDict (stamped id_ created_time).

Definition paged (data : list pyval) (next : option string) : http_result :=
  Response (Some (PDict
    [("data", PList data);
     ("paging", PDict match next with
                      | Some u => [("next", PStr u)]
                      | None => []
                      end)])).

Definition page2_url : string := "https://example.test/page2".

(** Two pages of two messages, stamped [s3, s1] and [s4, s2]. *)
Definition first_answer (s1 s3 : string) : http_result :=
  paged [msg "m3" s3; msg "m1" s1] (Some page2_url).

Definition second_answer (s2 s4 : string) : http_result :=
  paged [msg "m4" s4; msg "m2" s2] None.

Definition two_pages_of (s1 s2 s3 s4 : string) : list http_result :=
  [first_answer s1 s3; second_answer s2 s4].

(** The first request of a traversal and the request for the second
    page, and the trace of [iter_conversation_pages] over the two pages. *)
Definition first_request (cid token : string) : request :=
  page_request cid token PNone (Some []).

Definition second_request (cid token : string) : request :=
  page_request cid token (PStr page2_url) None.

Definition two_pages_trace (cid token s1 s2 s3 s4 : string) : list event :=
  [EFetch (first_request cid token) (first_answer s1 s3);
   EPage ([msg "m3" s3; msg "m1" s1], PDict [("next", PStr page2_url)]);
   EFetch (second_request cid token) (second_answer s2 s4);
   EPage ([msg "m4" s4; msg "m2" s2], PDict [])].

Definition T1 : string := "2024-05-01T10:00:01+0000".
Definition T2 : string := "2024-05-01T10:00:02+0000".
Definition T3 : string := "2024-05-01T10:00:03+0000".
Definition T4 : string := "2024-05-01T10:00:04+0000".

Definition two_pages : list http_result := two_pages_of T1 T2 T3 T4.

(** A pager without ceiling and a pager with ceiling 1, and the Page
    each builds from the first answer of [two_pages]. *)
Definition pager0 : ConversationPager :=
  ConversationPager_init "c" "tok" "asc" 0.

Definition pager1 : ConversationPager :=
  ConversationPager_init "c" "tok" "asc" 1.

Definition pager_request (cursor : option string) : request :=
  page_request "c" "tok" (cursor_value cursor) None.

Definition first_page : ConversationPage :=
  page_of None [stamped "m1" T1; stamped "m3" T3]
    (PDict [("next", PStr page2_url)]).


(** Answers of the remote side: a request that times out, a body whose
    record field is a string, a body that is a list, and a page without
    records that carries a next cursor. *)
Definition timed_out : http_result := RequestException "timed out".



Definition list_body_answer : http_result := Response (Some (PList [])).

Definition empty_page_answer : http_result := paged [] (Some page2_url).

(** Records for text extraction. *)
Definition direct_and_attachment : pydict :=
  [("id", PStr "m1"); ("message", PStr "  hello ");
   ("attachments",
    PDict [("data", PList [PDict [("payload", PDict [("text", PStr "other")])]])])].

Definition attachment_body_only : pydict :=
  [("id", PStr "m1");
   ("attachments",
    PDict [("data", PList [PDict [("payload", PDict [("body", PStr " hi ")])]])])].

(** White space beyond the blank: a line feed, U+00A0 and U+2003 in
    UTF-8. *)
Definition line_feed : string := String "010"%char EmptyString.

Definition no_break_space : string :=
  String "194"%char (String "160"%char EmptyString).

Definition em_space : string :=
  String "226"%char (String "128"%char (String "131"%char EmptyString)).

(** A message without a creation timestamp, and one stamped at the
    epoch itself. *)
Definition unstamped : NormalizedMessage := [("id", PStr "b")].

Definition stamped_at_epoch : NormalizedMessage :=
  [("id", PStr "a"); ("created_time", PStr "1970-01-01T00:00:00+0000")].

(** A message whose creation timestamp is a number. *)
Definition number_stamped : NormalizedMessage :=
  [("id", PStr "a"); ("created_time", PInt 1714557601)].

(** Two pages of which the second has a body that is a list; a remote
    side that serves one page only. *)
Definition page_then_list_body : list http_result :=
  [first_answer T1 T3; list_body_answer].

Definition one_page : list http_result := [second_answer T2 T4].

(** A remote side whose only page holds the message stamped with a
    number. *)
Definition number_stamped_page : list http_result :=
  [paged [PDict number_stamped] None].

(** A file of identifiers with a blank line and padded lines, whose
    reading ends normally; any other path cannot be opened. *)
Definition ids_path : string := "ids.txt".

Definition ids_files (path : string) : list string * option string :=
  if String.eqb path ids_path then
    (["17841400000000001" +:+ line_feed; "  " +:+ line_feed;
      " 17841400000000002 " +:+ line_feed], None)
  else ([], Some "[Errno 2] No such file or directory").

End Fixtures.

(** ** The models of the library functions at work *)

Example strip_white_space :
  strip (Fixtures.no_break_space +:+ "  a b" +:+ Fixtures.em_space +:+ Fixtures.line_feed +:+ " ") = "a b".
Proof. reflexivity. Qed.

Example strip_blank : strip "   " = "".
Proof. reflexivity. Qed.

Example str_chars_utf8 :
  str_chars ("a" +:+ Fixtures.em_space +:+ "b") = ["a"; Fixtures.em_space; "b"].
Proof. reflexivity. Qed.

Example py_eq_int_float : py_eq (PInt 1) (PFloat 2 (-1)) = true.
Proof. reflexivity. Qed.

Example py_eq_dict_order :
  py_eq (PDict [("a", PInt 1); ("b", PInt 2)])
        (PDict [("b", PInt 2); ("a", PBool true)]) = true.
Proof. reflexivity. Qed.

Example py_lt_str_int : py_lt (PStr "a") (PInt 1) = Raise TypeError.
Proof. reflexivity. Qed.

Example py_lt_lists :
  py_lt (PList [PInt 1; PStr "a"]) (PList [PInt 1; PStr "b"]) = Ret true.
Proof. reflexivity. Qed.

Example strptime_canonical_offset :
  Fixtures.strptime_canonical "2024-02-29T23:59:59-0530" = Some 1709270999000000.
Proof. reflexivity. Qed.

Example strptime_canonical_no_such_day :
  Fixtures.strptime_canonical "2023-02-29T23:59:59-0530" = None.
Proof. reflexivity. Qed.

Example list_sort_reverse_is_stable :
  list_sort (@key Fixtures.canonical_parser) true
    [Fixtures.stamped "a" Fixtures.T1; Fixtures.stamped "c" Fixtures.T2;
     Fixtures.stamped "a" Fixtures.T1 ++ [("n", PInt 2)]]
  = Ret [Fixtures.stamped "c" Fixtures.T2; Fixtures.stamped "a" Fixtures.T1;
         Fixtures.stamped "a" Fixtures.T1 ++ [("n", PInt 2)]].
Proof. reflexivity. Qed.

Example list_sort_mixed_identifiers :
  list_sort (@key Fixtures.canonical_parser) false
    [[("id", PInt 5)]; [("id", PStr "a")]]
  = Raise TypeError.
Proof. reflexivity. Qed.

(** ** The order of the Ordering Key *)

Lemma string_ltb_irrefl s : String.ltb s s = false.
Proof.
  unfold String.ltb.
  pose proof (proj2 (String_as_OT.cmp_eq s s) eq_refl) as H.
  unfold String_as_OT.cmp in H. by rewrite H.
Qed.

Lemma string_ltb_trans s t u :
  String.ltb s t = true -> String.ltb t u = true -> String.ltb s u = true.
Proof.
  unfold String.ltb. intros Hst Htu.
  destruct (String.compare s t) eqn:Est; try discriminate.
  destruct (String.compare t u) eqn:Etu; try discriminate.
  apply String_as_OT.cmp_lt in Est, Etu.
  pose proof (String_as_OT.lt_trans _ _ _ Est Etu) as Hsu.
  apply String_as_OT.cmp_lt in Hsu. unfold String_as_OT.cmp in Hsu.
  by rewrite Hsu.
Qed.

Lemma string_ltb_total s t :
  String.ltb s t = false -> String.ltb t s = false -> s = t.
Proof.
  unfold String.ltb. intros Hst Hts.
  rewrite String.compare_antisym in Hts.
  destruct (String.compare s t) eqn:E; simpl in *; try discriminate.
  by apply String.compare_eq_iff.
Qed.

Lemma ordering_key_ltb_irrefl a : ordering_key_ltb a a = false.
Proof.
  unfold ordering_key_ltb.
  rewrite Z.ltb_irrefl, Z.eqb_refl, string_ltb_irrefl. done.
Qed.

Lemma ordering_key_ltb_trans a b c :
  ordering_key_ltb a b = true -> ordering_key_ltb b c = true ->
  ordering_key_ltb a c = true.
Proof.
  unfold ordering_key_ltb.
  destruct a as [ta sa], b as [tb sb], c as [tc sc]; simpl.
  intros Hab Hbc.
  apply orb_true_iff in Hab as [Hab | Hab], Hbc as [Hbc | Hbc];
    apply orb_true_iff.
  - left. lia.
  - apply andb_true_iff in Hbc as [Hbc _]. left. lia.
  - apply andb_true_iff in Hab as [Hab _]. left. lia.
  - apply andb_true_iff in Hab as [Hab Hs], Hbc as [Hbc Ht].
    right. apply andb_true_iff. split; [lia |].
    eapply string_ltb_trans; eauto.
Qed.

Lemma ordering_key_ltb_total a b :
  ordering_key_ltb a b = false -> ordering_key_ltb b a = false -> a = b.
Proof.
  unfold ordering_key_ltb.
  destruct a as [ta sa], b as [tb sb]; simpl.
  intros Hab Hba.
  apply orb_false_iff in Hab as [Hab Hab'], Hba as [Hba Hba'].
  assert (ta = tb) as -> by lia.
  rewrite Z.eqb_refl in Hab', Hba'. simpl in *.
  f_equal. by apply string_ltb_total.
Qed.

Lemma ordering_key_ltb_asym a b :
  ordering_key_ltb a b = true -> ordering_key_ltb b a = false.
Proof.
  intros Hab. destruct (ordering_key_ltb b a) eqn:Hba; [| done].
  pose proof (ordering_key_ltb_trans _ _ _ Hab Hba) as H.
  by rewrite ordering_key_ltb_irrefl in H.
Qed.

(** [le] is transitive: the negation of a strict total order. *)
Lemma ordering_key_le_trans a b c :
  ordering_key_le a b -> ordering_key_le b c -> ordering_key_le a c.
Proof.
  unfold ordering_key_le. intros Hba Hcb.
  destruct (ordering_key_ltb c a) eqn:Hca; [| done].
  destruct (ordering_key_ltb a b) eqn:Hab.
  - pose proof (ordering_key_ltb_trans _ _ _ Hca Hab). congruence.
  - assert (a = b) as -> by by apply ordering_key_ltb_total. congruence.
Qed.

Lemma ordering_key_le_total a b : ordering_key_le a b \/ ordering_key_le b a.
Proof.
  unfold ordering_key_le.
  destruct (ordering_key_ltb b a) eqn:Hba; [| by left].
  right. by apply ordering_key_ltb_asym.
Qed.

Lemma ordering_key_le_antisym a b :
  ordering_key_le a b -> ordering_key_le b a -> a = b.
Proof. unfold ordering_key_le. intros. by apply ordering_key_ltb_total. Qed.

(** ** The stable sort by Ordering Key *)

Section SortMessages.
Context {TP : TimeParser}.

Lemma insert_message_perm x l : Permutation (x :: l) (insert_message x l).
Proof.
  induction l as [| y l IH]; simpl; [done |].
  destruct (ordering_key_ltb _ _); [| done].
  rewrite perm_swap. by apply perm_skip.
Qed.

Lemma sort_ascending_perm l : Permutation l (sort_ascending l).
Proof.
  induction l as [| x l IH]; simpl; [done |].
  rewrite <- insert_message_perm. by apply perm_skip.
Qed.

Lemma insert_message_ascending x l :
  ascending l -> ascending (insert_message x l).
Proof.
  unfold ascending.
  induction l as [| y l IH]; simpl; intros Hl.
  - repeat constructor.
  - apply StronglySorted_inv in Hl as [Hl Hy].
    destruct (ordering_key_ltb (ordering_key y) (ordering_key x)) eqn:Hyx.
    + constructor; [by apply IH |].
      rewrite <- insert_message_perm. constructor; [| done].
      by apply ordering_key_ltb_asym.
    + constructor; [by constructor |].
      constructor; [done |].
      eapply Forall_impl; [exact Hy |]. simpl. intros z Hz.
      eapply ordering_key_le_trans; [| exact Hz]. done.
Qed.

Lemma sort_ascending_ascending l : ascending (sort_ascending l).
Proof.
  induction l as [| x l IH]; simpl.
  - constructor.
  - by apply insert_message_ascending.
Qed.

Lemma with_key_insert k x l :
  with_key k (insert_message x l) = with_key k (x :: l).
Proof.
  unfold with_key.
  induction l as [| y l IH]; simpl; [done |].
  destruct (ordering_key_ltb (ordering_key y) (ordering_key x)) eqn:Hyx;
    [| done].
  simpl. rewrite IH. simpl.
  case_bool_decide as Hy; case_bool_decide as Hx; try done.
  rewrite Hy, Hx, ordering_key_ltb_irrefl in Hyx. done.
Qed.

Lemma with_key_sort_ascending k l : with_key k (sort_ascending l) = with_key k l.
Proof.
  induction l as [| x l IH]; simpl; [done |].
  rewrite with_key_insert. unfold with_key in *. simpl. by rewrite IH.
Qed.

Lemma with_key_rev k l : with_key k (rev l) = rev (with_key k l).
Proof.
  unfold with_key. induction l as [| x l IH]; simpl; [done |].
  rewrite List.filter_app, IH. simpl.
  case_bool_decide; simpl; [done | by rewrite app_nil_r].
Qed.

Lemma descending_rev l : ascending l -> descending (rev l).
Proof.
  unfold ascending, descending.
  induction 1 as [| x l Hl IH Hx]; simpl; [constructor |].
  apply StronglySorted_app_2; [| done | repeat constructor].
  intros a b Ha Hb. apply list_elem_of_singleton in Hb as ->.
  rewrite Forall_forall in Hx. apply Hx.
  apply list_elem_of_In. apply list_elem_of_In in Ha.
  by apply in_rev.
Qed.

(** What [sort_messages] returns: the same messages, in key order, those
    of equal key in the order they had. *)
Lemma sort_messages_spec reverse l :
  Permutation l (sort_messages reverse l)
  /\ (if reverse then descending (sort_messages reverse l)
      else ascending (sort_messages reverse l))
  /\ forall k, with_key k (sort_messages reverse l) = with_key k l.
Proof.
  unfold sort_messages. destruct reverse.
  - split; [| split].
    + rewrite <- Permutation_rev, <- sort_ascending_perm. apply Permutation_rev.
    + apply descending_rev, sort_ascending_ascending.
    + intros k. by rewrite with_key_rev, with_key_sort_ascending,
        with_key_rev, rev_involutive.
  - split; [| split].
    + apply sort_ascending_perm.
    + apply sort_ascending_ascending.
    + intros k. apply with_key_sort_ascending.
Qed.

End SortMessages.

(** ** [list.sort] with the key of the program *)

Section ListSort.
Context {TP : TimeParser}.

(** The key tuple of a message with well-typed fields. *)
Lemma key_str_keyed m :
  str_keyed m = true ->
  key m = Ret (fst (ordering_key m), PStr (snd (ordering_key m))).
Proof.
  unfold str_keyed, key, ordering_key, parsed_timestamp, parse_created_time,
    dict_get_none, dict_get_default.
  intros H. apply andb_true_iff in H as [Hct Hid].
  destruct (dict_get m "created_time") as [ct |] eqn:Ect; simpl.
  - destruct ct; simpl in *;
      try (rewrite (negb_true_iff _) in Hct; rewrite Hct; simpl);
      try (destruct (dict_get m "id") as [[] |]; simpl in *; done).
    destruct (String.eqb s ""); simpl;
      destruct (dict_get m "id") as [[] |]; simpl in *; done.
  - destruct (dict_get m "id") as [[] |]; simpl in *; done.
Qed.

Lemma key_lt_str t1 s1 t2 s2 :
  key_lt (t1, PStr s1) (t2, PStr s2) = Ret (ordering_key_ltb (t1, s1) (t2, s2)).
Proof.
  unfold key_lt, ordering_key_ltb. simpl.
  destruct (Z.eqb_spec t1 t2) as [-> | Hne]; simpl.
  - rewrite Z.ltb_irrefl. simpl.
    destruct (String.eqb_spec s1 s2) as [-> | Hs]; [| done].
    by rewrite string_ltb_irrefl.
  - by rewrite orb_false_r.
Qed.

Lemma key_ltb_python_key a b :
  key_ltb (python_key a) (python_key b)
  = ordering_key_ltb (ordering_key a) (ordering_key b).
Proof.
  unfold key_ltb, python_key. rewrite key_lt_str.
  destruct (ordering_key a), (ordering_key b). simpl.
  by destruct (ordering_key_ltb _ _).
Qed.

Lemma comparable_python_key a b : comparable (python_key a) (python_key b) = true.
Proof. unfold comparable, python_key. by rewrite !key_lt_str. Qed.

Lemma pairwise_comparable_python_key l :
  pairwise_comparable (map python_key l) = true.
Proof.
  induction l as [| x l IH]; simpl; [done |].
  rewrite IH, andb_true_r. apply forallb_forall.
  intros k Hk. apply in_map_iff in Hk as (y & <- & _).
  apply comparable_python_key.
Qed.

Lemma map_outcome_key l :
  Forall (fun m => str_keyed m = true) l ->
  map_outcome key l = Ret (map python_key l).
Proof.
  induction 1 as [| x l Hx Hl IH]; simpl; [done |].
  by rewrite (key_str_keyed x Hx), IH.
Qed.

Lemma combine_python_key l : combine (map python_key l) l = map keyed l.
Proof. induction l as [| x l IH]; simpl; [done | by rewrite IH]. Qed.

Lemma insert_keyed_keyed x l :
  insert_keyed (keyed x) (map keyed l) = map keyed (insert_message x l).
Proof.
  induction l as [| y l IH]; simpl; [done |].
  rewrite key_ltb_python_key.
  destruct (ordering_key_ltb _ _); simpl; [by rewrite IH | done].
Qed.

Lemma stable_sort_keyed l :
  stable_sort (map keyed l) = map keyed (sort_ascending l).
Proof.
  unfold stable_sort. induction l as [| x l IH]; simpl; [done |].
  by rewrite IH, insert_keyed_keyed.
Qed.

Lemma map_snd_keyed l : map snd (map keyed l) = l.
Proof. induction l as [| x l IH]; simpl; [done | by rewrite IH]. Qed.

(** On messages with well-typed fields [list.sort] does not raise and is
    the stable sort by Ordering Key. *)
Lemma list_sort_str_keyed reverse l :
  Forall (fun m => str_keyed m = true) l ->
  list_sort key reverse l = Ret (sort_messages reverse l).
Proof.
  intros Hl. unfold list_sort, sort_messages.
  rewrite (map_outcome_key l Hl). simpl.
  rewrite pairwise_comparable_python_key, combine_python_key.
  destruct reverse.
  - by rewrite <- map_rev, stable_sort_keyed, <- map_rev, map_snd_keyed.
  - by rewrite stable_sort_keyed, map_snd_keyed.
Qed.

(** Whatever the keys, a sort that returns has permuted the list. *)
Lemma insert_keyed_perm {A} (x : (Z * pyval) * A) l :
  Permutation (x :: l) (insert_keyed x l).
Proof.
  induction l as [| y l IH]; simpl; [done |].
  destruct (key_ltb _ _); [| done].
  rewrite perm_swap. by apply perm_skip.
Qed.

Lemma stable_sort_perm {A} (l : list ((Z * pyval) * A)) :
  Permutation l (stable_sort l).
Proof.
  unfold stable_sort. induction l as [| x l IH]; simpl; [done |].
  rewrite <- insert_keyed_perm. by apply perm_skip.
Qed.

Lemma map_outcome_length {A B} (f : A -> outcome B) l ks :
  map_outcome f l = Ret ks -> length ks = length l.
Proof.
  revert ks. induction l as [| x l IH]; simpl; intros ks H.
  - by inversion H.
  - destruct (f x); simpl in H; try discriminate.
    destruct (map_outcome f l); simpl in H; try discriminate.
    inversion H; subst. simpl. f_equal. by apply IH.
Qed.

Lemma map_snd_combine {A B} (ks : list A) (l : list B) :
  length ks = length l -> map snd (combine ks l) = l.
Proof.
  revert l. induction ks as [| k ks IH]; intros [| x l]; simpl; try done.
  intros H. f_equal. apply IH. lia.
Qed.

Lemma list_sort_perm {A} (keyf : A -> outcome (Z * pyval)) reverse l sorted :
  list_sort keyf reverse l = Ret sorted -> Permutation l sorted.
Proof.
  unfold list_sort.
  destruct (map_outcome keyf l) as [ks | |] eqn:Hks; simpl; try discriminate.
  destruct (pairwise_comparable ks); [| discriminate].
  intros H. inversion H; subst; clear H.
  apply map_outcome_length in Hks.
  rewrite <- (map_snd_combine ks l Hks) at 1.
  apply Permutation_map.
  destruct reverse.
  - rewrite <- Permutation_rev, <- stable_sort_perm. apply Permutation_rev.
  - apply stable_sort_perm.
Qed.

End ListSort.

(** ** Runs of the engine *)

Section Runs.
Context {TP : TimeParser} {T : Transport}.

Lemma normalize_message_run r w :
  normalize_message r w = (Ret (normalized r), w, rejection_notice r).
Proof.
  unfold normalize_message, normalized, rejection_notice.
  destruct r; try done.
  by destruct (truthy (dict_get_none d "id")).
Qed.

(** A page is processed to its end whatever its records are. *)
Lemma normalize_into_run acc data w :
  normalize_into acc data w
  = (Ret (acc ++ omap normalized data), w, flat_map rejection_notice data).
Proof.
  revert acc. induction data as [| r data IH]; intros acc; simpl.
  - by rewrite app_nil_r.
  - unfold bind. rewrite normalize_message_run.
    destruct (normalized r) as [d |]; rewrite IH; [| done].
    by rewrite <- app_assoc.
Qed.

Lemma fetch_conversation_page_run cid token url params w :
  fetch_conversation_page cid token url params w
  = (fetch_outcome (http_get (page_request cid token url params) w).1,
     (http_get (page_request cid token url params) w).2,
     EFetch (page_request cid token url params)
            (http_get (page_request cid token url params) w).1
     :: failure_notice cid (http_get (page_request cid token url params) w).1).
Proof.
  unfold fetch_conversation_page, bind, send.
  destruct (http_get _ w) as [res w1]; simpl.
  destruct res as [exc | [payload |]]; simpl; try done.
  by destruct (page_of_payload payload).
Qed.

Lemma yield_all_run l w : yield_all l w = (Ret tt, w, map EYield l).
Proof.
  induction l as [| m l IH]; simpl; [done |].
  unfold bind, emit. by rewrite IH.
Qed.

(** One iteration of the loop of [iter_conversation_pages]. *)
Lemma pages_loop_unfold {S} fuel cid token pl (body : S -> list pyval * pyval -> M S)
    url params count s w :
  pages_loop (Datatypes.S fuel) cid token pl body url params count s w
  = if negb (pl =? 0) && (count >=? pl) then (Ret s, w, [])
    else
      let rq := page_request cid token url params in
      let res := (http_get rq w).1 in
      let w1 := (http_get rq w).2 in
      match fetch_outcome res with
      | Ret (Some page) =>
          match body s page w1 with
          | (Ret s', w2, t2) =>
              match py_get (snd page) "next" PNone with
              | Ret nxt =>
                  if negb (truthy nxt) then (Ret s', w2, EFetch rq res :: t2)
                  else
                    match pages_loop fuel cid token pl body nxt None
                            (count + 1) s' w2 with
                    | (r, w3, t3) => (r, w3, EFetch rq res :: t2 ++ t3)
                    end
              | Raise e => (Raise e, w2, EFetch rq res :: t2)
              | OutOfFuel => (OutOfFuel, w2, EFetch rq res :: t2)
              end
          | (Raise e, w2, t2) => (Raise e, w2, EFetch rq res :: t2)
          | (OutOfFuel, w2, t2) => (OutOfFuel, w2, EFetch rq res :: t2)
          end
      | Ret None => (Ret s, w1, EFetch rq res :: failure_notice cid res)
      | Raise e => (Raise e, w1, [EFetch rq res])
      | OutOfFuel => (OutOfFuel, w1, [EFetch rq res])
      end.
Proof.
  simpl. destruct (negb (pl =? 0) && (count >=? pl)); [done |].
  unfold bind at 1. rewrite fetch_conversation_page_run.
  destruct (http_get _ w) as [res w1]; simpl.
  destruct res as [exc | [payload |]]; simpl; try done.
  destruct (page_of_payload payload) as [[data paging] | e |]; simpl; try done.
  unfold bind at 1.
  destruct (body s (data, paging) w1) as [[[s' | e |] w2] t2]; try done.
  unfold bind at 1, lift at 1.
  destruct (py_get paging "next" PNone) as [nxt | e |]; simpl;
    rewrite ?app_nil_r; try done.
  destruct (negb (truthy nxt)); simpl; [by rewrite app_nil_r |].
  by destruct (pages_loop fuel cid token pl body nxt None (count + 1) s' w2)
    as [[r w3] t3].
Qed.

Lemma fetches_app t1 t2 : fetches (t1 ++ t2) = fetches t1 ++ fetches t2.
Proof. unfold fetches. apply omap_app. Qed.

Lemma yields_app t1 t2 : yields (t1 ++ t2) = yields t1 ++ yields t2.
Proof. unfold yields. apply omap_app. Qed.

Lemma yields_map_EYield l : yields (map EYield l) = l.
Proof. induction l as [| m l IH]; simpl; [done | by rewrite <- IH at 2]. Qed.

Lemma fetches_rejection_notices data :
  fetches (flat_map rejection_notice data) = [].
Proof.
  induction data as [| r data IH]; simpl; [done |].
  rewrite fetches_app, IH, app_nil_r.
  destruct r; simpl; try done. by destruct (truthy _).
Qed.

Lemma yields_rejection_notices data :
  yields (flat_map rejection_notice data) = [].
Proof.
  induction data as [| r data IH]; simpl; [done |].
  rewrite yields_app, IH, app_nil_r.
  destruct r; simpl; try done. by destruct (truthy _).
Qed.

Lemma substitute_failure_notice ev cid res :
  flat_map (substitute ev) (failure_notice cid res) = failure_notice cid res.
Proof. by destruct res as [? | [? |]]. Qed.

Lemma pages_failure_notice cid res : pages (failure_notice cid res) = [].
Proof. by destruct res as [? | [? |]]. Qed.

(** A consumer that leaves the world alone and does not raise sees the
    pages of the generator one after the other; its prints take the place
    of the yields in the trace. *)
Lemma pages_loop_consumer {S} (body : S -> list pyval * pyval -> M S)
    (f : S -> list pyval * pyval -> S) (ev : list pyval * pyval -> list event)
    fuel cid token pl url params count s w r w' tr :
  pages_loop fuel cid token pl (fun _ page => emit (EPage page))
             url params count tt w = (r, w', tr) ->
  (forall page, In page (pages tr) ->
     forall s w, body s page w = (Ret (f s page), w, ev page)) ->
  pages_loop fuel cid token pl body url params count s w
  = (match r with
     | Ret _ => Ret (fold_left f (pages tr) s)
     | Raise e => Raise e
     | OutOfFuel => OutOfFuel
     end, w', flat_map (substitute ev) tr).
Proof.
  revert url params count s w r w' tr.
  induction fuel as [| fuel IH]; intros url params count s w r w' tr Hgen Hbody.
  { simpl in *. unfold lift in *. by inversion Hgen; subst. }
  rewrite pages_loop_unfold in Hgen. rewrite pages_loop_unfold.
  destruct (negb (pl =? 0) && (count >=? pl)).
  { by inversion Hgen; subst. }
  cbv zeta in *.
  set (rq := page_request cid token url params) in *.
  destruct (http_get rq w) as [res w1]; simpl in *.
  destruct (fetch_outcome res) as [[page |] | e |].
  - unfold emit in Hgen.
    destruct (py_get page.2 "next" PNone) as [nxt | e |].
    + destruct (negb (truthy nxt)).
      * inversion Hgen; subst; clear Hgen. simpl in *.
        rewrite (Hbody page (or_introl eq_refl)). by rewrite app_nil_r.
      * destruct (pages_loop fuel cid token pl _ nxt None (count + 1) tt w1)
          as [[r3 w3] t3] eqn:Hrec.
        inversion Hgen; subst; clear Hgen. simpl in *.
        rewrite (Hbody page (or_introl eq_refl)).
        rewrite (IH nxt None (count + 1) (f s page) w1 r w' t3 Hrec).
        -- done.
        -- intros p Hp. apply Hbody. by right.
    + inversion Hgen; subst; clear Hgen. simpl in *.
      rewrite (Hbody page (or_introl eq_refl)). by rewrite app_nil_r.
    + inversion Hgen; subst; clear Hgen. simpl in *.
      rewrite (Hbody page (or_introl eq_refl)). by rewrite app_nil_r.
  - inversion Hgen; subst; clear Hgen. simpl.
    by rewrite pages_failure_notice, substitute_failure_notice.
  - by inversion Hgen; subst.
  - by inversion Hgen; subst.
Qed.

(** The fuel of the model is immaterial: a run that did not use it up is
    the run with any larger fuel. *)
Lemma pages_loop_more_fuel {S} (body : S -> list pyval * pyval -> M S)
    fuel fuel' cid token pl url params count s w :
  (fuel <= fuel')%nat ->
  (pages_loop fuel cid token pl body url params count s w).1.1 <> OutOfFuel ->
  pages_loop fuel' cid token pl body url params count s w
  = pages_loop fuel cid token pl body url params count s w.
Proof.
  revert fuel' url params count s w.
  induction fuel as [| fuel IH]; intros fuel' url params count s w Hle Hrun.
  { by simpl in Hrun. }
  destruct fuel' as [| fuel']; [lia |].
  rewrite pages_loop_unfold in Hrun. rewrite !pages_loop_unfold.
  destruct (negb (pl =? 0) && (count >=? pl)); [done |].
  cbv zeta in *. destruct (http_get _ w) as [res w1]; simpl in *.
  destruct (fetch_outcome res) as [[page |] | e |]; try done.
  destruct (body s page w1) as [[[s1 | e |] w2] t2]; try done.
  destruct (py_get page.2 "next" PNone) as [nxt | e |]; try done.
  destruct (negb (truthy nxt)); [done |].
  rewrite (IH fuel' nxt None (count + 1) s1 w2); [done | lia |].
  by destruct (pages_loop fuel cid token pl body nxt None (count + 1) s1 w2)
    as [[r3 w3] t3].
Qed.

Lemma iter_enriched_messages_more_fuel fuel fuel' cid token order pl w :
  (fuel <= fuel')%nat ->
  (iter_enriched_messages cid token order pl fuel w).1.1 <> OutOfFuel ->
  iter_enriched_messages cid token order pl fuel' w
  = iter_enriched_messages cid token order pl fuel w.
Proof.
  unfold iter_enriched_messages, for_conversation_pages. intros Hle.
  destruct (String.eqb order "asc").
  - unfold bind at 1 3. intros Hrun.
    rewrite (pages_loop_more_fuel _ fuel fuel'); [done | done |].
    by destruct (pages_loop fuel cid token pl _ PNone (Some []) 0 [] w)
      as [[[collected | e |] w1] t1].
  - by apply pages_loop_more_fuel.
Qed.

End Runs.

(** ** The pager *)

Section Pager.
Context {TP : TimeParser} {T : Transport}.

(** One call of [fetch_page], case by case. *)
Lemma fetch_page_unfold self c w :
  fetch_page self c w
  = match _cache self !! c with
    | Some page => (Ret (Some page, self), w, [])
    | None =>
        if ceiling_reached self then (Ret (None, self), w, [])
        else
          let rq := page_request (_conversation_id self) (_token self)
                      (cursor_value c) None in
          let res := (http_get rq w).1 in
          let w1 := (http_get rq w).2 in
          match fetch_outcome res with
          | Ret (Some page) =>
              match list_sort key (String.eqb (_order self) "desc")
                      (page_messages page) with
              | Ret sorted =>
                  (Ret (Some (page_of c sorted page.2),
                        with_page self c (page_of c sorted page.2)),
                   w1, EFetch rq res :: flat_map rejection_notice page.1)
              | Raise e =>
                  (Raise e, w1, EFetch rq res :: flat_map rejection_notice page.1)
              | OutOfFuel =>
                  (OutOfFuel, w1, EFetch rq res :: flat_map rejection_notice page.1)
              end
          | Ret None =>
              (Ret (None, self), w1,
               EFetch rq res :: failure_notice (_conversation_id self) res)
          | Raise e => (Raise e, w1, [EFetch rq res])
          | OutOfFuel => (OutOfFuel, w1, [EFetch rq res])
          end
    end.
Proof.
  unfold fetch_page, ceiling_reached.
  destruct (_cache self !! c) as [page |] eqn:Hc; [done |].
  rewrite bool_decide_eq_false_2 by (intros [? ?]; done).
  rewrite andb_true_r.
  destruct (negb (_page_limit self =? 0) && (_fetched self >=? _page_limit self));
    [done |].
  unfold bind at 1. rewrite fetch_conversation_page_run.
  cbv zeta.
  destruct (http_get _ w) as [res w1]; simpl.
  destruct res as [exc | [payload |]]; simpl; try done.
  destruct (page_of_payload payload) as [[data paging] | e |]; simpl; try done.
  unfold bind at 1. rewrite normalize_into_run. simpl.
  unfold bind at 1, lift at 1, page_messages. simpl.
  destruct (list_sort key _ (omap normalized data)) as [sorted | e |];
    simpl; by rewrite ?app_nil_r.
Qed.

Lemma fetch_page_hit self c page w :
  _cache self !! c = Some page ->
  fetch_page self c w = (Ret (Some page, self), w, []).
Proof. intros H. by rewrite fetch_page_unfold, H. Qed.

Lemma fetch_page_ceiling self c w :
  _cache self !! c = None -> ceiling_reached self = true ->
  fetch_page self c w = (Ret (None, self), w, []).
Proof. intros H Hc. by rewrite fetch_page_unfold, H, Hc. Qed.


Lemma fetch_page_cases self c w o self' w' tr :
  fetch_page self c w = (Ret (o, self'), w', tr) ->
  fetch_page_case self c w o self' w' tr.
Proof.
  rewrite fetch_page_unfold.
  destruct (_cache self !! c) as [page |] eqn:Hc.
  { intros H; inversion H; subst. by constructor. }
  destruct (ceiling_reached self) eqn:Hceil.
  { intros H; inversion H; subst. by constructor. }
  cbv zeta. destruct (http_get _ w) as [res w1]; simpl.
  destruct (fetch_outcome res) as [[page |] | e |]; try done.
  - destruct (list_sort _ _ _) as [sorted | e |]; try done.
    intros H; inversion H; subst.
    constructor; try done. apply fetches_rejection_notices.
  - intros H; inversion H; subst. by constructor.
Qed.



Lemma fetch_page_caches self c w page self' w' tr :
  fetch_page self c w = (Ret (Some page, self'), w', tr) ->
  _cache self' !! c = Some page.
Proof.
  intros H. apply fetch_page_cases in H.
  inversion H; subst; [done |]. simpl. apply lookup_insert_eq.
Qed.


Lemma reachable_invariant init self :
  reachable init self ->
  pager_invariant init ->
  pager_invariant self /\ _page_limit self = _page_limit init
  /\ _conversation_id self = _conversation_id init
  /\ _token self = _token init /\ _order self = _order init.
Proof.
  unfold pager_invariant.
  induction 1 as [| s1 c1 w o s2 w' tr _ IH Hcall]; [done |].
  intros Hinit. destruct (IH Hinit) as (Hinv & Hpl & Hcid & Htok & Hord).
  apply fetch_page_cases in Hcall.
  destruct Hcall as [| | |p w' rq res notices Hc]; try done.
  simpl. repeat split; try done.
  rewrite map_size_insert_None by done. lia.
Qed.

Lemma init_invariant cid token order pl :
  pager_invariant (ConversationPager_init cid token order pl).
Proof. unfold pager_invariant. simpl. by rewrite map_size_empty. Qed.

End Pager.

(** ** The probing order of text extraction *)

Lemma _from_candidate_trimmed v : _from_candidate v = trimmed v.
Proof.
  unfold _from_candidate, trimmed. destruct v; try done.
  by destruct (String.eqb (strip s) "").
Qed.

Lemma first_text_cons v l :
  first_text (v :: l)
  = match trimmed v with Some t => Some t | None => first_text l end.
Proof. unfold first_text. simpl. by destruct (trimmed v). Qed.

Lemma first_text_app l1 l2 :
  first_text (l1 ++ l2)
  = match first_text l1 with Some t => Some t | None => first_text l2 end.
Proof.
  induction l1 as [| v l1 IH]; simpl; [done |].
  rewrite !first_text_cons, IH. by destruct (trimmed v).
Qed.

Lemma probe_keys_first_text d keys :
  probe_keys d keys = first_text (map (dict_get_none d) keys).
Proof.
  induction keys as [| k keys IH]; simpl; [done |].
  rewrite first_text_cons, _from_candidate_trimmed, IH. done.
Qed.

Lemma probe_attachments_first_text items :
  probe_attachments items = first_text (flat_map attachment_candidates items).
Proof.
  induction items as [| item items IH]; simpl; [done |].
  rewrite first_text_app, <- IH.
  destruct item; simpl; try done.
  rewrite first_text_cons, _from_candidate_trimmed.
  destruct (trimmed (dict_get_none d "text")); [done |].
  destruct (dict_get_none d "payload") as [| | | | |?|p]; try done.
  unfold payload_candidates. by rewrite <- probe_keys_first_text.
Qed.

Lemma py_get_iter_case v :
  (exists items, py_iter v = Ret items) \/ py_iter v = Raise TypeError.
Proof. destruct v; simpl; eauto. Qed.

Lemma extract_message_text_candidates data entries :
  attachment_entries data = Ret entries ->
  extract_message_text data = Ret (first_text (candidates data entries)).
Proof.
  unfold attachment_entries, extract_message_text, candidates.
  intros Hentries.
  rewrite first_text_cons, first_text_app, _from_candidate_trimmed.
  destruct (trimmed (dict_get_none data "message")); [done |].
  assert (Htf : match dict_get_none data "text" with
                | PStr _ => _from_candidate (dict_get_none data "text")
                | PDict d => probe_keys d TEXT_KEYS
                | _ => None
                end = first_text (container_candidates (dict_get_none data "text"))).
  { destruct (dict_get_none data "text") as [| | | |s| |d]; try done.
    - unfold container_candidates.
      rewrite first_text_cons, _from_candidate_trimmed.
      by destruct (trimmed (PStr s)).
    - unfold container_candidates. by rewrite probe_keys_first_text. }
  rewrite Htf.
  destruct (first_text (container_candidates _)); [done |].
  destruct (dict_get_none data "attachments"); simpl;
    try (inversion Hentries; subst; done).
  rewrite Hentries. simpl. by rewrite probe_attachments_first_text.
Qed.

(** What the function does on every record: the loop over the attachment
    entries is reached only when the direct field and the text container
    give no text, and raises when the entries cannot be iterated. *)
Lemma extract_message_text_total data :
  extract_message_text data
  = match first_text (dict_get_none data "message"
                      :: container_candidates (dict_get_none data "text")) with
    | Some text => Ret (Some text)
    | None =>
        let? entries := attachment_entries data in
        Ret (first_text (flat_map attachment_candidates entries))
    end.
Proof.
  unfold attachment_entries, extract_message_text.
  rewrite first_text_cons, _from_candidate_trimmed.
  destruct (trimmed (dict_get_none data "message")); [done |].
  assert (Htf : match dict_get_none data "text" with
                | PStr _ => _from_candidate (dict_get_none data "text")
                | PDict d => probe_keys d TEXT_KEYS
                | _ => None
                end = first_text (container_candidates (dict_get_none data "text"))).
  { destruct (dict_get_none data "text") as [| | | |s| |d]; try done.
    - unfold container_candidates.
      rewrite first_text_cons, _from_candidate_trimmed.
      by destruct (trimmed (PStr s)).
    - unfold container_candidates. by rewrite probe_keys_first_text. }
  rewrite Htf.
  destruct (first_text (container_candidates _)); [done |].
  destruct (dict_get_none data "attachments"); try done.
  destruct (py_get_iter_case (dict_get_default d "data" (PList [])))
    as [[items ->] | ->]; simpl; [| done].
  by rewrite probe_attachments_first_text.
Qed.

(** X14: on a record whose attachment entries can be iterated (the
    [data] field of an [attachments] mapping is absent, a list, a string
    or a mapping), text extraction returns the first candidate that is a
    string not empty once trimmed, trimmed, the candidates being probed
    in the order direct text field, text container (a string, or a
    mapping probed for its sub-keys), then each attachment entry's text
    field and payload sub-keys, and returns no text when no candidate
    counts; a direct text field that is not empty once trimmed wins over
    anything else, and a record with only an attachment payload [body]
    gives that value trimmed. *)
Theorem extract_message_text_probe_order :
  (forall data entries,
     attachment_entries data = Ret entries ->
     extract_message_text data = Ret (first_text (candidates data entries)))
  /\ (forall data s,
        dict_get data "message" = Some (PStr s) -> strip s <> "" ->
        extract_message_text data = Ret (Some (strip s)))
  /\ (forall data s,
        dict_get data "message" = None -> dict_get data "text" = None ->
        dict_get data "attachments"
        = Some (PDict [("data",
                        PList [PDict [("payload", PDict [("body", PStr s)])]])]) ->
        strip s <> "" ->
        extract_message_text data = Ret (Some (strip s))).
Proof.
  split; [exact extract_message_text_candidates |]. split.
  - intros data s Hm Hs. unfold extract_message_text, dict_get_none,
      dict_get_default. rewrite Hm. simpl.
    apply String.eqb_neq in Hs. by rewrite Hs.
  - intros data s Hm Ht Ha Hs.
    rewrite (extract_message_text_candidates data
               [PDict [("payload", PDict [("body", PStr s)])]]).
    + unfold candidates, dict_get_none, dict_get_default.
      rewrite Hm, Ht. unfold first_text. simpl.
      apply String.eqb_neq in Hs. by rewrite Hs.
    + unfold attachment_entries, dict_get_none, dict_get_default.
      by rewrite Ha.
Qed.

(** C9: on the record [{"id": "m1", "attachments": {"data": null}}],
    where every probe fails, text extraction does not return "no text"
    as it does when the [data] field is an empty list: the loop over the
    attachment entries raises [TypeError], the [data] field being
    iterated without the type test that guards every other access of
    the function. *)
Lemma extract_message_text_not_iterable :
  extract_message_text
    [("id", PStr "m1"); ("attachments", PDict [("data", PNone)])]
  = Raise TypeError
  /\ extract_message_text
       [("id", PStr "m1"); ("attachments", PDict [("data", PList [])])]
     = Ret None.
Proof. split; reflexivity. Qed.

(** ** The Ordering Key *)

Section OrderingClaims.
Context {TP : TimeParser}.

Lemma StronglySorted_lookup {A} (R : A -> A -> Prop) l i j a b :
  StronglySorted R l -> l !! i = Some a -> l !! j = Some b -> (i < j)%nat ->
  R a b.
Proof.
  intros Hl. revert i j.
  induction Hl as [| x l Hl IH Hx]; intros i j Hi Hj Hij; [done |].
  destruct j as [| j]; [lia |].
  destruct i as [| i]; simpl in *.
  - inversion Hi; subst. rewrite Forall_forall in Hx. apply Hx.
    by eapply list_elem_of_lookup_2.
  - eapply IH; eauto. lia.
Qed.

(** C8 (as amended): for every NormalizedMessage whose creation timestamp
    is absent, false or a string and whose identifier is a string, the
    key of the program is computed without failure and is (parsed
    timestamp, or the epoch sentinel when the timestamp is absent or does
    not parse; identifier); the comparison of two such keys never fails
    and is a strict total order; and a message without a parsable
    timestamp sorts before every message with a timestamp strictly after
    the epoch. *)
Theorem ordering_key_total_order :
  (forall m, str_keyed m = true ->
     key m = Ret (match parsed_timestamp m with Some t => t | None => EPOCH end,
                  PStr (snd (ordering_key m))))
  /\ (forall m1 m2, str_keyed m1 = true -> str_keyed m2 = true ->
      exists k1 k2,
        key m1 = Ret k1 /\ key m2 = Ret k2
        /\ key_lt k1 k2 = Ret (ordering_key_ltb (ordering_key m1) (ordering_key m2)))
  /\ (forall a b c : Z * string,
        ordering_key_ltb a a = false
        /\ (ordering_key_ltb a b = true -> ordering_key_ltb b c = true ->
            ordering_key_ltb a c = true)
        /\ (ordering_key_ltb a b = true \/ a = b \/ ordering_key_ltb b a = true))
  /\ (forall m1 m2 t,
        str_keyed m1 = true -> str_keyed m2 = true ->
        parsed_timestamp m1 = None -> parsed_timestamp m2 = Some t ->
        EPOCH < t ->
        ordering_key_ltb (ordering_key m1) (ordering_key m2) = true
        /\ forall l sorted i j,
             Forall (fun m => str_keyed m = true) l ->
             list_sort key false l = Ret sorted ->
             sorted !! i = Some m1 -> sorted !! j = Some m2 ->
             (i < j)%nat).
Proof.
  split; [| split; [| split]].
  - intros m Hm. by rewrite (key_str_keyed m Hm).
  - intros m1 m2 H1 H2. eexists _, _.
    split; [by apply key_str_keyed |]. split; [by apply key_str_keyed |].
    rewrite key_lt_str. by destruct (ordering_key m1), (ordering_key m2).
  - intros a b c. split; [apply ordering_key_ltb_irrefl |].
    split; [apply ordering_key_ltb_trans |].
    destruct (ordering_key_ltb a b) eqn:Hab; [by left |].
    destruct (ordering_key_ltb b a) eqn:Hba; [by right; right |].
    right; left. by apply ordering_key_ltb_total.
  - intros m1 m2 t H1 H2 Hp1 Hp2 Ht.
    assert (Hlt : ordering_key_ltb (ordering_key m1) (ordering_key m2) = true).
    { unfold ordering_key_ltb, ordering_key. rewrite Hp1, Hp2. simpl.
      apply orb_true_iff. left. by apply Z.ltb_lt. }
    split; [done |].
    intros l sorted i j Hl Hsort Hi Hj.
    rewrite (list_sort_str_keyed false l Hl) in Hsort.
    inversion Hsort; subst; clear Hsort.
    destruct (sort_messages_spec false l) as (_ & Hasc & _).
    destruct (Nat.lt_trichotomy i j) as [Hij | [-> | Hji]]; [done | |].
    + rewrite Hi in Hj. inversion Hj; subst. congruence.
    + pose proof (StronglySorted_lookup _ _ _ _ _ _ Hasc Hj Hi Hji) as Hle.
      unfold ordering_key_le in Hle. simpl in Hle. congruence.
Qed.

End OrderingClaims.

(** ** Rejected records *)

Section Normalization.
Context {TP : TimeParser} {T : Transport}.

Lemma normalized_has_identifier r :
  is_Some (normalized r) <-> has_identifier r.
Proof.
  unfold normalized, has_identifier, dict_get_none, dict_get_default. split.
  - destruct r; try by intros [? ?].
    destruct (dict_get d "id") as [v |] eqn:Hid; simpl; [| by intros [? ?]].
    destruct (truthy v) eqn:Hv; [| by intros [? ?]].
    intros _. by exists d, v.
  - intros (d & v & -> & Hid & Hv). by rewrite Hid, Hv.
Qed.

Lemma normalized_Some r m : normalized r = Some m -> r = PDict m.
Proof.
  unfold normalized. destruct r; try done.
  destruct (truthy _); [| done]. by intros [= ->].
Qed.

Lemma normalized_identified r m :
  normalized r = Some m -> has_identifier (PDict m).
Proof.
  intros H. pose proof (normalized_Some _ _ H) as ->.
  apply normalized_has_identifier. by rewrite H.
Qed.

Lemma omap_normalized_identified data :
  Forall (fun m => has_identifier (PDict m)) (omap normalized data).
Proof.
  induction data as [| r data IH]; simpl; [constructor |].
  destruct (normalized r) as [m |] eqn:Hr; [| done].
  constructor; [| done]. by eapply normalized_identified.
Qed.

(** What holds of every event of a traversal and of the state of its
    consumer holds of the whole run. *)
Lemma pages_loop_invariant {S} (I : S -> Prop) (P : event -> Prop)
    (body : S -> list pyval * pyval -> M S) fuel cid token pl :
  (forall rq res, P (EFetch rq res)) ->
  (forall line, P (EStderr line)) ->
  (forall s page w, I s ->
     Forall P (body s page w).2
     /\ forall s', (body s page w).1.1 = Ret s' -> I s') ->
  forall url params count s w,
    I s ->
    Forall P (pages_loop fuel cid token pl body url params count s w).2
    /\ forall s',
         (pages_loop fuel cid token pl body url params count s w).1.1 = Ret s' ->
         I s'.
Proof.
  intros Hfetch Hline Hbody.
  induction fuel as [| fuel IH]; intros url params count s w Hs.
  { simpl. split; [constructor | done]. }
  rewrite pages_loop_unfold.
  destruct (negb (pl =? 0) && (count >=? pl)).
  { simpl. split; [constructor | by intros s' [= <-]]. }
  cbv zeta.
  set (rq := page_request cid token url params).
  destruct (http_get rq w) as [res w1]; simpl.
  assert (Hnotice : Forall P (failure_notice cid res)).
  { destruct res as [? | [? |]]; simpl; repeat constructor; apply Hline. }
  destruct (fetch_outcome res) as [[page |] | e |]; simpl.
  - destruct (Hbody s page w1 Hs) as [Htr Hnext].
    destruct (body s page w1) as [[[s1 | e |] w2] t2]; simpl in *.
    + destruct (py_get page.2 "next" PNone) as [nxt | e |]; simpl.
      * destruct (negb (truthy nxt)); simpl.
        -- split; [by constructor | intros s' [= <-]; by apply Hnext].
        -- specialize (IH nxt None (count + 1) s1 w2 (Hnext s1 eq_refl)).
           destruct (pages_loop fuel cid token pl body nxt None (count + 1) s1 w2)
             as [[r3 w3] t3]; simpl in *.
           destruct IH as [Ht3 Hs3].
           split; [| done].
           constructor; [done |]. by apply Forall_app.
      * split; [by constructor | done].
      * split; [by constructor | done].
    + split; [by constructor | done].
    + split; [by constructor | done].
  - split; [by constructor | by intros s' [= <-]].
  - split; [repeat constructor; done | done].
  - split; [repeat constructor; done | done].
Qed.


Lemma identified_notices data : Forall identified_event (flat_map rejection_notice data).
Proof.
  induction data as [| r data IH]; simpl; [constructor |].
  apply Forall_app. split; [| done].
  destruct r; simpl; try constructor.
  destruct (truthy _); repeat constructor.
Qed.

Lemma identified_yields l :
  Forall (fun m => has_identifier (PDict m)) l ->
  Forall identified_event (map EYield l).
Proof. induction 1; simpl; by constructor. Qed.

Lemma yields_identified tr m :
  Forall identified_event tr -> In m (yields tr) -> has_identifier (PDict m).
Proof.
  induction 1 as [| e tr He _ IH]; simpl; [done |].
  destruct e; simpl in *; try done.
  intros [<- | H]; [done | by apply IH].
Qed.

(** Every message the streaming traversal yields has an identifier. *)
Lemma iter_enriched_messages_identified cid token order pl fuel w :
  Forall identified_event (iter_enriched_messages cid token order pl fuel w).2.
Proof.
  unfold iter_enriched_messages, for_conversation_pages.
  destruct (String.eqb order "asc").
  - unfold bind.
    set (body := fun (collected : list NormalizedMessage)
                     (page : list pyval * pyval) =>
                   normalize_into collected page.1).
    assert (Hbody : forall s page w0,
              Forall (fun m => has_identifier (PDict m)) s ->
              Forall identified_event (body s page w0).2
              /\ forall s', (body s page w0).1.1 = Ret s' ->
                  Forall (fun m => has_identifier (PDict m)) s').
    { intros s page w0 Hs. unfold body. rewrite normalize_into_run. simpl.
      split; [apply identified_notices |].
      intros s' [= <-]. apply Forall_app. split; [done |].
      apply omap_normalized_identified. }
    destruct (pages_loop_invariant _ identified_event body
                fuel cid token pl ltac:(done) ltac:(done) Hbody
                PNone (Some []) 0 [] w ltac:(constructor)) as [Htr Hst].
    destruct (pages_loop fuel cid token pl _ PNone (Some []) 0 [] w)
      as [[[collected | e |] w1] t1]; simpl in *; try done.
    specialize (Hst collected eq_refl).
    destruct collected as [| m collected]; simpl; [by rewrite app_nil_r |].
    unfold lift.
    destruct (list_sort key false (m :: collected)) as [sorted | e |] eqn:Hsort;
      simpl; rewrite ?app_nil_r; try done.
    rewrite yield_all_run. simpl. apply Forall_app. split; [done |].
    apply identified_yields.
    apply list_sort_perm in Hsort. by rewrite <- Hsort.
  - apply (pages_loop_invariant (fun _ => True) identified_event);
      try done.
    intros [] page w0 _. cbv beta. unfold bind. rewrite normalize_into_run. simpl.
    split; [| done].
    pose proof (omap_normalized_identified page.1) as Hid.
    destruct (omap normalized page.1) as [| m detailed] eqn:Hd; simpl.
    { rewrite app_nil_r. apply identified_notices. }
    unfold lift.
    destruct (list_sort key true (m :: detailed)) as [sorted | e |] eqn:Hsort;
      simpl; rewrite ?app_nil_r; try apply identified_notices.
    rewrite yield_all_run. simpl. apply Forall_app.
    split; [apply identified_notices |].
    apply identified_yields.
    apply list_sort_perm in Hsort. by rewrite <- Hsort.
Qed.


Lemma fetch_page_identified self c w o self' w' tr :
  cache_identified self ->
  fetch_page self c w = (Ret (o, self'), w', tr) ->
  cache_identified self'.
Proof.
  intros Hinv. rewrite fetch_page_unfold.
  destruct (_cache self !! c) as [page |] eqn:Hc.
  { by intros [= <- <- <- <-]. }
  destruct (ceiling_reached self).
  { by intros [= <- <- <- <-]. }
  cbv zeta. destruct (http_get _ w) as [res w1]; simpl.
  destruct (fetch_outcome res) as [[page |] | e |]; try done.
  - destruct (list_sort _ _ _) as [sorted | e |] eqn:Hsort; try done.
    intros [= <- <- <- <-].
    intros c' page'. simpl. rewrite lookup_insert.
    case_decide as Hcc.
    + intros [= <-]. simpl.
      apply list_sort_perm in Hsort. rewrite <- Hsort.
      apply omap_normalized_identified.
    + apply Hinv.
  - by intros [= <- <- <- <-].
Qed.

Lemma reachable_identified init self :
  reachable init self -> cache_identified init -> cache_identified self.
Proof.
  induction 1 as [| s1 c1 w o s2 w' tr _ IH Hcall]; [done |].
  intros Hinit. eapply fetch_page_identified; [| exact Hcall]. by apply IH.
Qed.

(** C6 (as amended): normalization returns a NormalizedMessage exactly
    for a mapping with a non-empty identifier, which it returns as it
    is; any other record gives [None], with a notice when the record is
    a mapping and silently when it is not; the rest of the page is
    processed all the same; and no rejected record is among the messages
    the traversal yields or a pager returns. *)
Theorem normalize_message_rejects_malformed :
  (forall r w,
     normalize_message r w = (Ret (normalized r), w, rejection_notice r)
     /\ (is_Some (normalized r) <-> has_identifier r)
     /\ (forall m, normalized r = Some m -> r = PDict m /\ rejection_notice r = [])
     /\ (normalized r = None ->
         rejection_notice r
         = if is_mapping r then [EStderr "  skipping message without an id"]
           else []))
  /\ (forall acc data w,
        normalize_into acc data w
        = (Ret (acc ++ omap normalized data), w, flat_map rejection_notice data))
  /\ (forall cid token order page_limit fuel w m,
        In m (yields (iter_enriched_messages cid token order page_limit fuel w).2) ->
        has_identifier (PDict m))
  /\ (forall cid token order page_limit self c w page self' w' tr m,
        reachable (ConversationPager_init cid token order page_limit) self ->
        fetch_page self c w = (Ret (Some page, self'), w', tr) ->
        In m (messages page) ->
        has_identifier (PDict m)).
Proof.
  split; [| split; [| split]].
  - intros r w. split; [apply normalize_message_run |].
    split; [apply normalized_has_identifier |]. split.
    + intros m Hm. split; [by apply normalized_Some |].
      unfold normalized, rejection_notice in *. destruct r; try done.
      by destruct (truthy _).
    + unfold normalized, rejection_notice. destruct r; try done.
      by destruct (truthy _).
  - intros. apply normalize_into_run.
  - intros cid token order pl fuel w m Hm.
    eapply yields_identified; [| exact Hm].
    apply iter_enriched_messages_identified.
  - intros cid token order pl self c w page self' w' tr m Hreach Hcall Hm.
    assert (Hinv : cache_identified self').
    { eapply fetch_page_identified; [| exact Hcall].
      eapply reachable_identified; [exact Hreach |].
      intros c' p'. simpl. by rewrite lookup_empty. }
    pose proof (Hinv c page (fetch_page_caches _ _ _ _ _ _ _ Hcall)) as Hall.
    rewrite Forall_forall in Hall. apply Hall. by apply list_elem_of_In.
Qed.

End Normalization.

(** ** The traversal of the pages *)

Section Traversal.
Context {TP : TimeParser} {T : Transport}.


Lemma fetch_outcome_page res page :
  fetch_outcome res = Ret (Some page) -> failed res = false.
Proof. by destruct res as [? | [? |]]. Qed.

Lemma fetch_outcome_raise res e :
  fetch_outcome res = Raise e -> failed res = false.
Proof. by destruct res as [? | [? |]]. Qed.

Lemma fetch_outcome_fuel res :
  fetch_outcome res = OutOfFuel -> failed res = false.
Proof. by destruct res as [? | [? |]]. Qed.



Lemma generator_unfold fuel cid token pl url params count w :
  generator (S fuel) cid token pl url params count w
  = if negb (pl =? 0) && (count >=? pl) then (Ret tt, w, [])
    else
      let rq := page_request cid token url params in
      let res := (http_get rq w).1 in
      let w1 := (http_get rq w).2 in
      match fetch_outcome res with
      | Ret (Some page) =>
          match py_get page.2 "next" PNone with
          | Ret nxt =>
              if negb (truthy nxt) then (Ret tt, w1, [EFetch rq res; EPage page])
              else
                match generator fuel cid token pl nxt None (count + 1) w1 with
                | (r, w3, t3) => (r, w3, EFetch rq res :: EPage page :: t3)
                end
          | Raise e => (Raise e, w1, [EFetch rq res; EPage page])
          | OutOfFuel => (OutOfFuel, w1, [EFetch rq res; EPage page])
          end
      | Ret None => (Ret tt, w1, EFetch rq res :: failure_notice cid res)
      | Raise e => (Raise e, w1, [EFetch rq res])
      | OutOfFuel => (OutOfFuel, w1, [EFetch rq res])
      end.
Proof.
  unfold generator. rewrite pages_loop_unfold.
  destruct (negb (pl =? 0) && (count >=? pl)); [done |].
  cbv zeta. destruct (fetch_outcome _) as [[page |] | e |]; try done.
Qed.

(** Below a ceiling the loop runs at most [page_limit - page_count] times. *)
Lemma generator_ceiling fuel cid token pl url params count w :
  pl <> 0 ->
  Z.of_nat (length (pages (generator fuel cid token pl url params count w).2))
  <= Z.max 0 (pl - count).
Proof.
  intros Hpl. revert url params count w.
  induction fuel as [| fuel IH]; intros url params count w.
  { simpl. lia. }
  rewrite generator_unfold.
  destruct (negb (pl =? 0) && (count >=? pl)) eqn:Hceil; [simpl; lia |].
  assert (count < pl) as Hlt.
  { apply andb_false_iff in Hceil as [H | H].
    - apply negb_false_iff, Z.eqb_eq in H. done.
    - rewrite Z.geb_leb in H. apply Z.leb_gt in H. lia. }
  cbv zeta. destruct (http_get _ w) as [res w1]; simpl.
  destruct (fetch_outcome res) as [[page |] | e |]; simpl; try lia.
  - destruct (py_get page.2 "next" PNone) as [nxt | e |]; simpl; try lia.
    destruct (negb (truthy nxt)); simpl; [lia |].
    specialize (IH nxt None (count + 1) w1).
    destruct (generator fuel cid token pl nxt None (count + 1) w1)
      as [[r3 w3] t3]; simpl in *. lia.
  - rewrite pages_failure_notice. simpl. lia.
Qed.

(** With a ceiling, fuel beyond it is never used up. *)
Lemma generator_fuel fuel cid token pl url params count w :
  0 < pl -> (Z.to_nat (pl - count) < fuel)%nat ->
  (generator fuel cid token pl url params count w).1.1 <> OutOfFuel.
Proof.
  intros Hpl. revert url params count w.
  induction fuel as [| fuel IH]; intros url params count w Hfuel; [lia |].
  rewrite generator_unfold.
  destruct (negb (pl =? 0) && (count >=? pl)) eqn:Hceil; [done |].
  assert (count < pl) as Hlt.
  { apply andb_false_iff in Hceil as [H | H].
    - apply negb_false_iff, Z.eqb_eq in H. lia.
    - rewrite Z.geb_leb in H. apply Z.leb_gt in H. lia. }
  cbv zeta. destruct (http_get _ w) as [res w1]; simpl.
  destruct res as [exc | [payload |]]; simpl; try done.
  destruct (page_of_payload payload) as [page | e |] eqn:Hp; simpl; try done.
  - destruct page as [data paging]. simpl.
    destruct paging; simpl; try done.
    destruct (negb (truthy _)); simpl; [done |].
    specialize (IH (dict_get_default d "next" PNone) None (count + 1) w1).
    destruct (generator fuel cid token pl _ None (count + 1) w1)
      as [[r3 w3] t3]; simpl in *. apply IH. lia.
  - unfold page_of_payload in Hp.
    destruct payload; simpl in Hp; try done.
    destruct (dict_get_default d "messages" (PDict d)); simpl in Hp; done.
Qed.

(** A failed fetch is the last thing a traversal does. *)
Lemma generator_failure_last fuel cid token pl url params count w tr1 rq res tr2 :
  (generator fuel cid token pl url params count w).2
  = tr1 ++ EFetch rq res :: tr2 ->
  failed res = true ->
  tr2 = failure_notice cid res
  /\ (generator fuel cid token pl url params count w).1.1 = Ret tt.
Proof.
  revert url params count w tr1.
  induction fuel as [| fuel IH]; intros url params count w tr1.
  { simpl. by destruct tr1. }
  rewrite generator_unfold.
  destruct (negb (pl =? 0) && (count >=? pl)); [by destruct tr1 |].
  cbv zeta. destruct (http_get _ w) as [res0 w1]; simpl.
  destruct (fetch_outcome res0) as [[page |] | e |] eqn:Hres; simpl.
  - apply fetch_outcome_page in Hres.
    destruct (py_get page.2 "next" PNone) as [nxt | e |]; simpl.
    + destruct (negb (truthy nxt)); simpl.
      * destruct tr1 as [| e1 [| e2 [| e3 tr1]]]; intros [=]; subst; congruence.
      * specialize (IH nxt None (count + 1) w1).
        destruct (generator fuel cid token pl nxt None (count + 1) w1)
          as [[r3 w3] t3]; simpl in *.
        destruct tr1 as [| e1 [| e2 tr1]]; intros [=]; subst;
          [congruence |]. by eapply IH.
    + destruct tr1 as [| e1 [| e2 [| e3 tr1]]]; intros [=]; subst; congruence.
    + destruct tr1 as [| e1 [| e2 [| e3 tr1]]]; intros [=]; subst; congruence.
  - destruct tr1 as [| e1 tr1]; intros [=]; subst; [done |].
    intros _. exfalso.
    destruct res0 as [? | [? |]]; simpl in *; try done;
      by destruct tr1 as [| ? [| ? ?]].
  - apply fetch_outcome_raise in Hres.
    destruct tr1 as [| e1 [| e2 tr1]]; intros [=]; subst; congruence.
  - apply fetch_outcome_fuel in Hres.
    destruct tr1 as [| e1 [| e2 tr1]]; intros [=]; subst; congruence.
Qed.

(** So is a page that carries no next cursor. *)
Lemma generator_no_next_last fuel cid token pl url params count w tr1 page d tr2 :
  (generator fuel cid token pl url params count w).2
  = tr1 ++ EPage page :: tr2 ->
  page.2 = PDict d -> truthy (dict_get_none d "next") = false ->
  tr2 = []
  /\ (generator fuel cid token pl url params count w).1.1 = Ret tt.
Proof.
  revert url params count w tr1.
  induction fuel as [| fuel IH]; intros url params count w tr1.
  { simpl. by destruct tr1. }
  rewrite generator_unfold.
  destruct (negb (pl =? 0) && (count >=? pl)); [by destruct tr1 |].
  cbv zeta. destruct (http_get _ w) as [res0 w1]; simpl.
  destruct (fetch_outcome res0) as [[page0 |] | e |] eqn:Hres; simpl.
  - destruct (py_get page0.2 "next" PNone) as [nxt | e |] eqn:Hnxt; simpl.
    + destruct (negb (truthy nxt)) eqn:Htr; simpl.
      * destruct tr1 as [| e1 [| e2 [| e3 tr1]]]; intros [=]; subst; done.
      * specialize (IH nxt None (count + 1) w1).
        destruct (generator fuel cid token pl nxt None (count + 1) w1)
          as [[r3 w3] t3]; simpl in *.
        destruct tr1 as [| e1 [| e2 tr1]]; intros [=]; subst.
        -- intros Hd Hfalse. rewrite Hd in Hnxt. simpl in Hnxt.
           inversion Hnxt; subst. unfold dict_get_none in Hfalse.
           rewrite Hfalse in Htr. done.
        -- by eapply IH.
    + destruct tr1 as [| e1 [| e2 [| e3 tr1]]]; intros [=]; subst.
      intros Hd. by rewrite Hd in Hnxt.
    + destruct tr1 as [| e1 [| e2 [| e3 tr1]]]; intros [=]; subst.
      intros Hd. by rewrite Hd in Hnxt.
  - destruct tr1 as [| e1 tr1]; intros [=]; subst.
    exfalso. destruct res0 as [? | [? |]]; simpl in *; try done;
      by destruct tr1 as [| ? [| ? ?]].
  - destruct tr1 as [| e1 [| e2 tr1]]; intros [=]; subst.
  - destruct tr1 as [| e1 [| e2 tr1]]; intros [=]; subst.
Qed.

(** A traversal that ends has met one of the three conditions. *)
Lemma generator_stop_reason fuel cid token pl url params count w :
  (generator fuel cid token pl url params count w).1.1 = Ret tt ->
  let tr := (generator fuel cid token pl url params count w).2 in
  (pl <> 0 /\ pl <= count + Z.of_nat (length (pages tr)))
  \/ (exists tr1 rq res,
        tr = tr1 ++ EFetch rq res :: failure_notice cid res /\ failed res = true)
  \/ (exists tr1 page d,
        tr = tr1 ++ [EPage page] /\ page.2 = PDict d
        /\ truthy (dict_get_none d "next") = false).
Proof.
  revert url params count w.
  induction fuel as [| fuel IH]; intros url params count w; [done |].
  rewrite generator_unfold.
  destruct (negb (pl =? 0) && (count >=? pl)) eqn:Hceil.
  { simpl. intros _. left.
    apply andb_true_iff in Hceil as [H1 H2].
    apply negb_true_iff, Z.eqb_neq in H1. rewrite Z.geb_leb in H2.
    apply Z.leb_le in H2. split; [done | lia]. }
  cbv zeta. destruct (http_get _ w) as [res0 w1]; simpl.
  destruct (fetch_outcome res0) as [[page0 |] | e |] eqn:Hres; simpl; try done.
  - destruct (py_get page0.2 "next" PNone) as [nxt | e |] eqn:Hnxt; simpl;
      try done.
    destruct (negb (truthy nxt)) eqn:Htr; simpl.
    + intros _. right; right.
      destruct page0 as [data paging]; simpl in *.
      destruct paging; simpl in Hnxt; try done.
      inversion Hnxt; subst.
      exists [EFetch (page_request cid token url params) res0], (data, PDict d), d.
      split; [done |]. split; [done |]. by apply negb_true_iff in Htr.
    + specialize (IH nxt None (count + 1) w1).
      destruct (generator fuel cid token pl nxt None (count + 1) w1)
        as [[r3 w3] t3]; simpl in *.
      intros Hr. destruct (IH Hr) as [[H1 H2] | [(tr1 & rq & res & -> & Hf)
                                                 | (tr1 & p & d & -> & Hp & Hd)]].
      * left. split; [done | lia].
      * right; left. by exists (EFetch (page_request cid token url params) res0
                                  :: EPage page0 :: tr1), rq, res.
      * right; right. by exists (EFetch (page_request cid token url params) res0
                                   :: EPage page0 :: tr1), p, d.
  - intros _. right; left.
    exists [], (page_request cid token url params), res0.
    split; [done |]. destruct res0 as [? | [p |]]; simpl in *; try done.
    by destruct (page_of_payload p).
Qed.

End Traversal.

(** ** When the traversal stops *)

Section TraversalClaims.
Context {TP : TimeParser} {T : Transport}.

(** C7 (as amended): the one-pass traversal stops exactly when the Page
    Fetcher signals FAILURE, when a page carries no next cursor, or when
    the page ceiling is reached: a failed fetch and a page without next
    cursor are each the last event of the run, a run never yields more
    pages than a positive ceiling, a run that ends has met one of the
    three conditions, and under a positive ceiling a run ends once it
    has more fuel than the ceiling. *)
Theorem iter_conversation_pages_stops cid token page_limit fuel w r w' tr :
  iter_conversation_pages cid token page_limit fuel w = (r, w', tr) ->
  (0 < page_limit -> Z.of_nat (length (pages tr)) <= page_limit)
  /\ (forall tr1 rq res tr2,
        tr = tr1 ++ EFetch rq res :: tr2 -> failed res = true ->
        tr2 = failure_notice cid res /\ r = Ret tt)
  /\ (forall tr1 page d tr2,
        tr = tr1 ++ EPage page :: tr2 ->
        page.2 = PDict d -> truthy (dict_get_none d "next") = false ->
        tr2 = [] /\ r = Ret tt)
  /\ (r = Ret tt ->
      (page_limit <> 0 /\ page_limit <= Z.of_nat (length (pages tr)))
      \/ (exists tr1 rq res,
            tr = tr1 ++ EFetch rq res :: failure_notice cid res
            /\ failed res = true)
      \/ (exists tr1 page d,
            tr = tr1 ++ [EPage page] /\ page.2 = PDict d
            /\ truthy (dict_get_none d "next") = false))
  /\ (0 < page_limit -> (Z.to_nat page_limit < fuel)%nat -> r <> OutOfFuel).
Proof.
  unfold iter_conversation_pages, for_conversation_pages.
  fold (generator fuel cid token page_limit PNone (Some []) 0).
  intros Hrun.
  split; [| split; [| split; [| split]]].
  - intros Hpos.
    pose proof (generator_ceiling fuel cid token page_limit PNone (Some []) 0 w
                  ltac:(lia)) as H.
    rewrite Hrun in H. simpl in H. lia.
  - intros tr1 rq res tr2 Htr Hfail.
    pose proof (generator_failure_last fuel cid token page_limit PNone (Some [])
                  0 w tr1 rq res tr2) as H.
    rewrite Hrun in H. simpl in H. by apply H.
  - intros tr1 page d tr2 Htr Hd Hnext.
    pose proof (generator_no_next_last fuel cid token page_limit PNone (Some [])
                  0 w tr1 page d tr2) as H.
    rewrite Hrun in H. simpl in H. by apply H.
  - intros Hr.
    pose proof (generator_stop_reason fuel cid token page_limit PNone (Some [])
                  0 w) as H.
    rewrite Hrun in H. simpl in H. destruct (H Hr) as [[H1 H2] | H']; [| by right].
    left. split; [done | lia].
  - intros Hpos Hfuel.
    pose proof (generator_fuel fuel cid token page_limit PNone (Some []) 0 w
                  Hpos) as H.
    rewrite Hrun in H. simpl in H. apply H.
    replace (page_limit - 0) with page_limit by lia. done.
Qed.


(** C10: a negative [page_limit] builds the pager that [page_limit = 0]
    builds, which sends a request for every cursor it has not cached,
    while the streaming traversal stops before its first request and
    yields no page and no message. *)
Theorem negative_page_limit_disagreement cid token order page_limit :
  page_limit < 0 ->
  ConversationPager_init cid token order page_limit
  = ConversationPager_init cid token order 0
  /\ (forall self c w,
        reachable (ConversationPager_init cid token order page_limit) self ->
        _cache self !! c = None ->
        exists rest,
          (fetch_page self c w).2
          = EFetch (page_request cid token (cursor_value c) None)
              (http_get (page_request cid token (cursor_value c) None) w).1
            :: rest)
  /\ (forall fuel w,
        iter_conversation_pages cid token page_limit (S fuel) w = (Ret tt, w, []))
  /\ (forall fuel w,
        iter_enriched_messages cid token order page_limit (S fuel) w
        = (Ret tt, w, [])).
Proof.
  intros Hneg.
  assert (Hceil : negb (page_limit =? 0) && (0 >=? page_limit) = true).
  { apply andb_true_iff. split.
    - apply negb_true_iff, Z.eqb_neq. lia.
    - rewrite Z.geb_leb. apply Z.leb_le. lia. }
  split; [| split; [| split]].
  - unfold ConversationPager_init. f_equal. lia.
  - intros self c w Hreach Hc.
    destruct (reachable_invariant _ _ Hreach (init_invariant _ _ _ _))
      as (_ & Hpl & Hcid & Htok & _).
    simpl in Hpl, Hcid, Htok. rewrite Z.max_r in Hpl by lia.
    rewrite fetch_page_unfold, Hc.
    unfold ceiling_reached. rewrite Hpl, Hcid, Htok. simpl.
    destruct (fetch_outcome _) as [[page |] | e |]; simpl; try by eexists.
    destruct (list_sort _ _ _); simpl; by eexists.
  - intros fuel w. unfold iter_conversation_pages, for_conversation_pages.
    by rewrite pages_loop_unfold, Hceil.
  - intros fuel w. unfold iter_enriched_messages, for_conversation_pages.
    destruct (String.eqb order "asc").
    + unfold bind. by rewrite pages_loop_unfold, Hceil.
    + by rewrite pages_loop_unfold, Hceil.
Qed.

End TraversalClaims.

(** ** The two streaming modes *)

Section Streaming.
Context {TP : TimeParser} {T : Transport}.


Lemma iter_conversation_pages_no_yield cid token pl fuel w :
  Forall not_yield (iter_conversation_pages cid token pl fuel w).2.
Proof.
  unfold iter_conversation_pages, for_conversation_pages.
  apply (pages_loop_invariant (fun _ => True) not_yield); try done.
  intros [] page w0 _. simpl. split; [by repeat constructor | done].
Qed.

Lemma fetches_substitute ev tr :
  (forall page, fetches (ev page) = []) ->
  fetches (flat_map (substitute ev) tr) = fetches tr.
Proof.
  intros Hev. induction tr as [| e tr IH]; simpl; [done |].
  rewrite fetches_app, IH. destruct e; simpl; try done. by rewrite Hev.
Qed.

Lemma yields_substitute ev tr :
  Forall not_yield tr ->
  yields (flat_map (substitute ev) tr)
  = flat_map (fun page => yields (ev page)) (pages tr).
Proof.
  induction 1 as [| e tr He _ IH]; simpl; [done |].
  rewrite yields_app, IH. destruct e; simpl in *; done.
Qed.

Lemma fold_left_collect (l : list (list pyval * pyval)) s :
  fold_left (fun collected page => collected ++ page_messages page) l s
  = s ++ flat_map page_messages l.
Proof.
  revert s. induction l as [| p l IH]; intros s; simpl.
  - by rewrite app_nil_r.
  - by rewrite IH, app_assoc.
Qed.


(** Ascending mode, on a traversal that returns and messages with
    well-typed fields. *)
Lemma iter_enriched_messages_asc cid token pl fuel w w' tr :
  iter_conversation_pages cid token pl fuel w = (Ret tt, w', tr) ->
  Forall (fun m => str_keyed m = true) (flat_map page_messages (pages tr)) ->
  iter_enriched_messages cid token "asc" pl fuel w
  = (Ret tt, w',
     flat_map (substitute page_notices) tr
     ++ map EYield (sort_messages false (flat_map page_messages (pages tr)))).
Proof.
  intros Hgen Hkeyed.
  unfold iter_enriched_messages, for_conversation_pages. simpl.
  unfold bind.
  rewrite (pages_loop_consumer
             (fun collected page => normalize_into collected page.1)
             (fun collected page => collected ++ page_messages page)
             page_notices fuel cid token pl PNone (Some []) 0 [] w
             (Ret tt) w' tr Hgen).
  2: { intros page _ s w0. apply normalize_into_run. }
  rewrite fold_left_collect. simpl.
  destruct (flat_map page_messages (pages tr)) as [| m l] eqn:Hcollected.
  { simpl. done. }
  unfold lift. rewrite (list_sort_str_keyed false _ Hkeyed).
  by rewrite yield_all_run.
Qed.


Lemma sort_messages_nil reverse : sort_messages reverse [] = [].
Proof. by destruct reverse. Qed.

Lemma iter_enriched_messages_desc cid token order pl fuel w w' tr :
  String.eqb order "asc" = false ->
  iter_conversation_pages cid token pl fuel w = (Ret tt, w', tr) ->
  Forall (fun m => str_keyed m = true) (flat_map page_messages (pages tr)) ->
  iter_enriched_messages cid token order pl fuel w
  = (Ret tt, w', flat_map (substitute page_descending) tr).
Proof.
  intros Horder Hgen Hkeyed.
  unfold iter_enriched_messages, for_conversation_pages. rewrite Horder.
  rewrite (pages_loop_consumer _ (fun _ _ => tt) page_descending
             fuel cid token pl PNone (Some []) 0 tt w (Ret tt) w' tr Hgen).
  { f_equal. f_equal. by destruct (fold_left _ _ _). }
  intros page Hpage [] w0. unfold bind. rewrite normalize_into_run. simpl.
  unfold page_descending, page_notices. fold (page_messages page).
  assert (Hk : Forall (fun m => str_keyed m = true) (page_messages page)).
  { rewrite Forall_forall in Hkeyed |- *. intros m Hm. apply Hkeyed.
    apply list_elem_of_In, in_flat_map. exists page.
    split; [done | by apply list_elem_of_In]. }
  destruct (page_messages page) as [| m l] eqn:Hmsgs.
  { by rewrite sort_messages_nil. }
  unfold lift. rewrite (list_sort_str_keyed true _ Hk).
  by rewrite yield_all_run.
Qed.

(** The same for a traversal that ends in any way: the run ends the way
    the traversal does. *)
Lemma iter_enriched_messages_desc_run cid token order pl fuel w r w' tr :
  String.eqb order "asc" = false ->
  iter_conversation_pages cid token pl fuel w = (r, w', tr) ->
  Forall (fun m => str_keyed m = true) (flat_map page_messages (pages tr)) ->
  iter_enriched_messages cid token order pl fuel w
  = (r, w', flat_map (substitute page_descending) tr).
Proof.
  intros Horder Hgen Hkeyed.
  unfold iter_enriched_messages, for_conversation_pages. rewrite Horder.
  rewrite (pages_loop_consumer _ (fun _ _ => tt) page_descending
             fuel cid token pl PNone (Some []) 0 tt w r w' tr Hgen).
  { f_equal. f_equal. destruct r as [[] | e |]; [| done | done].
    by destruct (fold_left _ _ _). }
  intros page Hpage [] w0. unfold bind. rewrite normalize_into_run. simpl.
  unfold page_descending, page_notices. fold (page_messages page).
  assert (Hk : Forall (fun m => str_keyed m = true) (page_messages page)).
  { rewrite Forall_forall in Hkeyed |- *. intros m Hm. apply Hkeyed.
    apply list_elem_of_In, in_flat_map. exists page.
    split; [done | by apply list_elem_of_In]. }
  destruct (page_messages page) as [| m l] eqn:Hmsgs.
  { by rewrite sort_messages_nil. }
  unfold lift. rewrite (list_sort_str_keyed true _ Hk).
  by rewrite yield_all_run.
Qed.

Lemma fetches_page_notices page : fetches (page_notices page) = [].
Proof. apply fetches_rejection_notices. Qed.

Lemma yields_page_notices page : yields (page_notices page) = [].
Proof. apply yields_rejection_notices. Qed.

End Streaming.

Import Fixtures.

(** ** The two pages of the specification *)

Section Examples.
Context {TP : TimeParser}.

Lemma ordering_key_stamped i s t :
  s <> "" -> strptime s = Some t -> ordering_key (stamped i s) = (t, i).
Proof.
  intros Hs Ht. unfold ordering_key, parsed_timestamp, stamped. simpl.
  apply String.eqb_neq in Hs. by rewrite Hs, Ht.
Qed.

Lemma ordering_key_ltb_lt t i t' i' : t < t' -> ordering_key_ltb (t, i) (t', i') = true.
Proof.
  intros H. unfold ordering_key_ltb. simpl.
  apply orb_true_iff. left. by apply Z.ltb_lt.
Qed.

Lemma ordering_key_ltb_gt t i t' i' : t' < t -> ordering_key_ltb (t, i) (t', i') = false.
Proof.
  intros H. unfold ordering_key_ltb. simpl.
  apply orb_false_iff. split; [apply Z.ltb_ge; lia |].
  apply andb_false_iff. left. apply Z.eqb_neq. lia.
Qed.

Lemma two_pages_generator cid token fuel s1 s2 s3 s4 :
  @iter_conversation_pages scripted cid token 0 (S (S fuel))
    (two_pages_of s1 s2 s3 s4)
  = (Ret tt, [], two_pages_trace cid token s1 s2 s3 s4).
Proof. reflexivity. Qed.

Lemma two_pages_trace_messages cid token s1 s2 s3 s4 :
  flat_map page_messages (pages (two_pages_trace cid token s1 s2 s3 s4))
  = [stamped "m3" s3; stamped "m1" s1; stamped "m4" s4; stamped "m2" s2].
Proof. reflexivity. Qed.

Lemma two_pages_trace_keyed cid token s1 s2 s3 s4 :
  Forall (fun m => str_keyed m = true)
    (flat_map page_messages (pages (two_pages_trace cid token s1 s2 s3 s4))).
Proof. rewrite two_pages_trace_messages. repeat constructor. Qed.

Lemma two_pages_sorted_ascending s1 s2 s3 s4 t1 t2 t3 t4 :
  s1 <> "" -> s2 <> "" -> s3 <> "" -> s4 <> "" ->
  strptime s1 = Some t1 -> strptime s2 = Some t2 ->
  strptime s3 = Some t3 -> strptime s4 = Some t4 ->
  t1 < t2 -> t2 < t3 -> t3 < t4 ->
  sort_messages false
    [stamped "m3" s3; stamped "m1" s1; stamped "m4" s4; stamped "m2" s2]
  = [stamped "m1" s1; stamped "m2" s2; stamped "m3" s3; stamped "m4" s4].
Proof.
  intros N1 N2 N3 N4 P1 P2 P3 P4 L12 L23 L34.
  pose proof (ordering_key_stamped "m1" _ _ N1 P1) as K1.
  pose proof (ordering_key_stamped "m2" _ _ N2 P2) as K2.
  pose proof (ordering_key_stamped "m3" _ _ N3 P3) as K3.
  pose proof (ordering_key_stamped "m4" _ _ N4 P4) as K4.
  unfold sort_messages, sort_ascending.
  cbn [fold_right insert_message]. rewrite K2, K4.
  rewrite (ordering_key_ltb_lt t2 _ t4) by lia.
  cbn [insert_message]. rewrite K1, K2.
  rewrite (ordering_key_ltb_gt t2 _ t1) by lia.
  cbn [insert_message]. rewrite K1, K2, K3, K4.
  rewrite (ordering_key_ltb_lt t1 _ t3) by lia.
  rewrite (ordering_key_ltb_lt t2 _ t3) by lia.
  rewrite (ordering_key_ltb_gt t4 _ t3) by lia. done.
Qed.

Lemma two_stamped_sorted_descending i j s s' t t' :
  s <> "" -> s' <> "" -> strptime s = Some t -> strptime s' = Some t' ->
  t' < t ->
  sort_messages true [stamped i s; stamped j s'] = [stamped i s; stamped j s'].
Proof.
  intros N N' P P' L. unfold sort_messages, sort_ascending.
  cbn [rev app fold_right insert_message].
  rewrite (ordering_key_stamped _ _ _ N P), (ordering_key_stamped _ _ _ N' P').
  by rewrite (ordering_key_ltb_gt t _ t') by lia.
Qed.

End Examples.

(** ** Ascending and descending streams *)

Section StreamingClaims.
Context {TP : TimeParser} {T : Transport}.

(** C1 (as amended): when the traversal ends without an exception and
    the messages of its pages have well-typed keys (a creation timestamp
    that is absent or a string, a string identifier), the engine in
    ascending mode goes through every page of the traversal before it
    yields anything, and then yields the normalized messages of all
    these pages as one collection sorted by Ordering Key ascending (a
    stable sort); for two pages stamped [T3, T1] and [T4, T2] with
    [T1 < T2 < T3 < T4] it yields exactly the messages stamped
    [T1, T2, T3, T4]. *)
Theorem ascending_mode_sorts_whole_conversation :
  (forall cid token page_limit fuel w w' tr,
     iter_conversation_pages cid token page_limit fuel w = (Ret tt, w', tr) ->
     Forall (fun m => str_keyed m = true) (flat_map page_messages (pages tr)) ->
     exists pre sorted,
       iter_enriched_messages cid token "asc" page_limit fuel w
       = (Ret tt, w', pre ++ map EYield sorted)
       /\ fetches pre = fetches tr /\ yields pre = []
       /\ Permutation (flat_map page_messages (pages tr)) sorted
       /\ ascending sorted
       /\ forall k,
            with_key k sorted = with_key k (flat_map page_messages (pages tr)))
  /\ (forall cid token fuel s1 s2 s3 s4 t1 t2 t3 t4,
        s1 <> "" -> s2 <> "" -> s3 <> "" -> s4 <> "" ->
        strptime s1 = Some t1 -> strptime s2 = Some t2 ->
        strptime s3 = Some t3 -> strptime s4 = Some t4 ->
        t1 < t2 -> t2 < t3 -> t3 < t4 ->
        yields (@iter_enriched_messages TP scripted cid token "asc" 0
                  (S (S fuel)) (two_pages_of s1 s2 s3 s4)).2
        = [stamped "m1" s1; stamped "m2" s2; stamped "m3" s3; stamped "m4" s4]).
Proof.
  split.
  - intros cid token pl fuel w w' tr Hgen Hkeyed.
    exists (flat_map (substitute page_notices) tr),
      (sort_messages false (flat_map page_messages (pages tr))).
    destruct (sort_messages_spec false (flat_map page_messages (pages tr)))
      as (Hperm & Hasc & Hstable).
    split; [by apply iter_enriched_messages_asc |].
    split; [apply fetches_substitute, fetches_page_notices |].
    split; [| done].
    rewrite yields_substitute.
    + clear. induction (pages tr) as [| p l IH]; simpl; [done |].
      rewrite yields_page_notices. exact IH.
    + pose proof (iter_conversation_pages_no_yield cid token pl fuel w) as H.
      by rewrite Hgen in H.
  - intros cid token fuel s1 s2 s3 s4 t1 t2 t3 t4 N1 N2 N3 N4 P1 P2 P3 P4 L12 L23 L34.
    rewrite (@iter_enriched_messages_asc TP scripted cid token 0 _ _ _ _
               (two_pages_generator cid token fuel s1 s2 s3 s4)
               (two_pages_trace_keyed cid token s1 s2 s3 s4)).
    cbn [snd]. rewrite yields_app, yields_map_EYield, two_pages_trace_messages.
    by rewrite (two_pages_sorted_ascending s1 s2 s3 s4 t1 t2 t3 t4).
Qed.

(** C2 (as amended): when the messages of the pages have well-typed
    keys (a creation timestamp that is absent or a string, a string
    identifier), the engine in descending mode (any order other than
    ["asc"]) yields page by page in the order of the traversal, however
    the traversal ends: at each page it yields the normalized messages
    of that page alone, sorted by Ordering Key descending (a stable
    sort), before the next page is fetched, and nothing is reordered
    across pages; for two pages stamped [T3, T1] and [T4, T2] with
    [T1 < T3] and [T2 < T4] the first page yields [T3, T1] and the
    second [T4, T2]. *)
Theorem descending_mode_sorts_page_by_page :
  (forall cid token order page_limit fuel w r w' tr,
     order <> "asc" ->
     iter_conversation_pages cid token page_limit fuel w = (r, w', tr) ->
     Forall (fun m => str_keyed m = true) (flat_map page_messages (pages tr)) ->
     exists out : list pyval * pyval -> list NormalizedMessage,
       (forall page,
          Permutation (page_messages page) (out page)
          /\ descending (out page)
          /\ forall k, with_key k (out page) = with_key k (page_messages page))
       /\ iter_enriched_messages cid token order page_limit fuel w
          = (r, w',
             flat_map (substitute (fun page =>
                         page_notices page ++ map EYield (out page))) tr)
       /\ yields (iter_enriched_messages cid token order page_limit fuel w).2
          = flat_map out (pages tr))
  /\ (forall cid token fuel s1 s2 s3 s4 t1 t2 t3 t4,
        s1 <> "" -> s2 <> "" -> s3 <> "" -> s4 <> "" ->
        strptime s1 = Some t1 -> strptime s2 = Some t2 ->
        strptime s3 = Some t3 -> strptime s4 = Some t4 ->
        t1 < t3 -> t2 < t4 ->
        (@iter_enriched_messages TP scripted cid token "desc" 0
           (S (S fuel)) (two_pages_of s1 s2 s3 s4)).2
        = [EFetch (first_request cid token) (first_answer s1 s3);
           EYield (stamped "m3" s3); EYield (stamped "m1" s1);
           EFetch (second_request cid token) (second_answer s2 s4);
           EYield (stamped "m4" s4); EYield (stamped "m2" s2)]).
Proof.
  split.
  - intros cid token order pl fuel w r w' tr Horder Hgen Hkeyed.
    apply String.eqb_neq in Horder.
    exists (fun page => sort_messages true (page_messages page)).
    split; [intros page; apply (sort_messages_spec true) |].
    rewrite (iter_enriched_messages_desc_run cid token order pl fuel w r w' tr)
      by done.
    split; [done |]. simpl.
    rewrite yields_substitute.
    + clear. induction (pages tr) as [| p l IH]; simpl; [done |].
      unfold page_descending at 1.
      by rewrite yields_app, yields_page_notices, yields_map_EYield, IH.
    + pose proof (iter_conversation_pages_no_yield cid token pl fuel w) as H.
      by rewrite Hgen in H.
  - intros cid token fuel s1 s2 s3 s4 t1 t2 t3 t4 N1 N2 N3 N4 P1 P2 P3 P4 L13 L24.
    rewrite (@iter_enriched_messages_desc TP scripted cid token "desc" 0 _ _ _ _
               eq_refl (two_pages_generator cid token fuel s1 s2 s3 s4)
               (two_pages_trace_keyed cid token s1 s2 s3 s4)).
    cbn [snd]. unfold two_pages_trace.
    cbn [flat_map substitute app]. unfold page_descending.
    change (page_messages ([msg "m3" s3; msg "m1" s1],
                           PDict [("next", PStr page2_url)]))
      with [stamped "m3" s3; stamped "m1" s1].
    change (page_messages ([msg "m4" s4; msg "m2" s2], PDict []))
      with [stamped "m4" s4; stamped "m2" s2].
    rewrite (two_stamped_sorted_descending "m3" "m1" s3 s1 t3 t1) by done.
    rewrite (two_stamped_sorted_descending "m4" "m2" s4 s2 t4 t2) by done.
    reflexivity.
Qed.

End StreamingClaims.

(** ** Cache and ceiling of the pager *)

Section PagerClaims.
Context {TP : TimeParser} {T : Transport}.


(** C4: once a pager built with a ceiling [page_limit > 0] holds that
    many pages, a cursor that is not cached gets [None] and no request is
    sent, while a cached cursor still gets its Page; with
    [page_limit = 1], after a first cursor was fetched, any other cursor
    gets [None] and the first one its Page. *)
Theorem fetch_page_ceiling_enforced :
  (forall cid token order page_limit self,
     0 < page_limit ->
     reachable (ConversationPager_init cid token order page_limit) self ->
     page_limit <= Z.of_nat (size (_cache self)) ->
     forall c w,
       match _cache self !! c with
       | Some page => fetch_page self c w = (Ret (Some page, self), w, [])
       | None => fetch_page self c w = (Ret (None, self), w, [])
       end)
  /\ (forall cid token order c1 w page self' w' tr,
        fetch_page (ConversationPager_init cid token order 1) c1 w
        = (Ret (Some page, self'), w', tr) ->
        forall c2 w2,
          (c2 <> c1 -> fetch_page self' c2 w2 = (Ret (None, self'), w2, []))
          /\ fetch_page self' c1 w2 = (Ret (Some page, self'), w2, [])).
Proof.
  assert (Hgen : forall cid token order page_limit self,
     0 < page_limit ->
     reachable (ConversationPager_init cid token order page_limit) self ->
     page_limit <= Z.of_nat (size (_cache self)) ->
     forall c w,
       match _cache self !! c with
       | Some page => fetch_page self c w = (Ret (Some page, self), w, [])
       | None => fetch_page self c w = (Ret (None, self), w, [])
       end).
  { intros cid token order page_limit self Hpos Hreach Hfull c w.
    destruct (reachable_invariant _ _ Hreach (init_invariant _ _ _ _))
      as (Hinv & Hpl & _).
    simpl in Hpl. rewrite Z.max_l in Hpl by lia.
    destruct (_cache self !! c) as [page |] eqn:Hc.
    - by apply fetch_page_hit.
    - apply fetch_page_ceiling; [done |].
      unfold ceiling_reached. rewrite Hpl, Hinv.
      apply andb_true_iff. split.
      + apply negb_true_iff, Z.eqb_neq. lia.
      + apply Z.geb_le. lia. }
  split; [exact Hgen |].
  intros cid token order c1 w page self' w' tr Hcall c2 w2.
  assert (Hreach : reachable (ConversationPager_init cid token order 1) self').
  { eapply reachable_call; [constructor | exact Hcall]. }
  pose proof (fetch_page_caches _ _ _ _ _ _ _ Hcall) as Hc1.
  assert (Hsize : 1 <= Z.of_nat (size (_cache self'))).
  { apply fetch_page_cases in Hcall.
    inversion Hcall as [p Hp | | |]; subst; simpl in *.
    - by rewrite lookup_empty in Hp.
    - rewrite map_size_insert_None by done. lia. }
  split.
  - intros Hne.
    pose proof (Hgen cid token order 1 self' ltac:(lia) Hreach Hsize c2 w2) as H.
    destruct (_cache self' !! c2) as [p2 |] eqn:Hc2; [| done].
    exfalso. apply fetch_page_cases in Hcall.
    inversion Hcall as [p Hp | | |]; subst; simpl in *.
    + by rewrite lookup_empty in Hp.
    + rewrite lookup_insert_ne in Hc2 by done. by rewrite lookup_empty in Hc2.
  - by apply fetch_page_hit.
Qed.

End PagerClaims.

(** ** The requests of a traversal *)

Section RequestChain.
Context {TP : TimeParser} {T : Transport}.

Lemma generator_requests_bound fuel cid token pl url params count w :
  pl <> 0 ->
  Z.of_nat (length (fetches (generator fuel cid token pl url params count w).2))
  <= Z.max 0 (pl - count).
Proof.
  intros Hpl. revert url params count w.
  induction fuel as [| fuel IH]; intros url params count w.
  { simpl. lia. }
  rewrite generator_unfold.
  destruct (negb (pl =? 0) && (count >=? pl)) eqn:Hceil; [simpl; lia |].
  assert (count < pl) as Hlt.
  { apply andb_false_iff in Hceil as [H | H].
    - apply negb_false_iff, Z.eqb_eq in H. done.
    - rewrite Z.geb_leb in H. apply Z.leb_gt in H. lia. }
  cbv zeta. destruct (http_get _ w) as [res w1]; simpl.
  destruct (fetch_outcome res) as [[page |] | e |]; simpl; try lia.
  - destruct (py_get page.2 "next" PNone) as [nxt | e |]; simpl; try lia.
    destruct (negb (truthy nxt)); simpl; [lia |].
    specialize (IH nxt None (count + 1) w1).
    destruct (generator fuel cid token pl nxt None (count + 1) w1)
      as [[r3 w3] t3]; simpl in *. lia.
  - destruct res as [? | [? |]]; simpl; lia.
Qed.

Lemma generator_pages_requests fuel cid token pl url params count w :
  (length (pages (generator fuel cid token pl url params count w).2)
   <= length (fetches (generator fuel cid token pl url params count w).2)
   <= S (length (pages (generator fuel cid token pl url params count w).2)))%nat.
Proof.
  revert url params count w.
  induction fuel as [| fuel IH]; intros url params count w.
  { simpl. lia. }
  rewrite generator_unfold.
  destruct (negb (pl =? 0) && (count >=? pl)); [simpl; lia |].
  cbv zeta. destruct (http_get _ w) as [res w1]; simpl.
  destruct (fetch_outcome res) as [[page |] | e |]; simpl; try lia.
  - destruct (py_get page.2 "next" PNone) as [nxt | e |]; simpl; try lia.
    destruct (negb (truthy nxt)); simpl; [lia |].
    specialize (IH nxt None (count + 1) w1).
    destruct (generator fuel cid token pl nxt None (count + 1) w1)
      as [[r3 w3] t3]; simpl in *. lia.
  - destruct res as [? | [? |]]; simpl; lia.
Qed.

(** The first thing a traversal does, if anything, is to send the
    request for its current cursor. *)
Lemma generator_head fuel cid token pl url params count w e tr :
  (generator fuel cid token pl url params count w).2 = e :: tr ->
  exists res, e = EFetch (page_request cid token url params) res.
Proof.
  destruct fuel as [| fuel]; [done |].
  rewrite generator_unfold.
  destruct (negb (pl =? 0) && (count >=? pl)); [done |].
  cbv zeta. destruct (http_get _ w) as [res0 w1]; simpl.
  destruct (fetch_outcome res0) as [[page0 |] | e0 |]; simpl.
  - destruct (py_get page0.2 "next" PNone) as [nxt | e0 |]; simpl.
    + destruct (negb (truthy nxt)); simpl.
      * intros [= <- _]. by eexists.
      * destruct (generator fuel cid token pl nxt None (count + 1) w1)
          as [[r3 w3] t3]; simpl.
        intros [= <- _]. by eexists.
    + intros [= <- _]. by eexists.
    + intros [= <- _]. by eexists.
  - intros [= <- _]. by eexists.
  - intros [= <- _]. by eexists.
  - intros [= <- _]. by eexists.
Qed.

(** A request that follows a page asks for the next cursor of that page,
    without parameters. *)
Lemma generator_follows_next fuel cid token pl url params count w
    tr1 page rq res tr2 :
  (generator fuel cid token pl url params count w).2
  = tr1 ++ EPage page :: EFetch rq res :: tr2 ->
  exists d,
    page.2 = PDict d /\ truthy (dict_get_none d "next") = true
    /\ rq = page_request cid token (dict_get_none d "next") None.
Proof.
  revert url params count w tr1.
  induction fuel as [| fuel IH]; intros url params count w tr1.
  { simpl. by destruct tr1. }
  rewrite generator_unfold.
  destruct (negb (pl =? 0) && (count >=? pl)); [by destruct tr1 |].
  cbv zeta. destruct (http_get _ w) as [res0 w1]; simpl.
  destruct (fetch_outcome res0) as [[page0 |] | e |] eqn:Hres; simpl.
  - destruct (py_get page0.2 "next" PNone) as [nxt | e |] eqn:Hnxt; simpl.
    + destruct (negb (truthy nxt)) eqn:Htr; simpl.
      * destruct tr1 as [| e1 [| e2 [| e3 tr1]]]; intros [=]; subst; done.
      * pose proof (generator_head fuel cid token pl nxt None (count + 1) w1)
          as Hhead.
        specialize (IH nxt None (count + 1) w1).
        destruct (generator fuel cid token pl nxt None (count + 1) w1)
          as [[r3 w3] t3]; simpl in *.
        destruct tr1 as [| e1 [| e2 tr1]]; intros [=]; subst.
        -- destruct (Hhead _ _ eq_refl) as [res' [= -> ->]].
           destruct page as [data paging]; simpl in *.
           destruct paging; simpl in Hnxt; try done.
           injection Hnxt as <-. exists d.
           split; [done |]. split; [| done].
           by apply negb_false_iff in Htr.
        -- by eapply IH.
    + destruct tr1 as [| e1 [| e2 [| e3 tr1]]]; intros [=]; subst.
    + destruct tr1 as [| e1 [| e2 [| e3 tr1]]]; intros [=]; subst.
  - destruct tr1 as [| e1 tr1]; intros [=]; subst.
    exfalso. destruct res0 as [? | [? |]]; simpl in *; try done;
      by destruct tr1 as [| ? [| ? ?]].
  - destruct tr1 as [| e1 [| e2 tr1]]; intros [=]; subst.
  - destruct tr1 as [| e1 [| e2 tr1]]; intros [=]; subst.
Qed.

Lemma generator_requests_shape fuel cid token pl url params count w :
  Forall (fun rq => exists u p, rq = page_request cid token u p)
    (fetches (generator fuel cid token pl url params count w).2).
Proof.
  revert url params count w.
  induction fuel as [| fuel IH]; intros url params count w.
  { simpl. constructor. }
  rewrite generator_unfold.
  destruct (negb (pl =? 0) && (count >=? pl)); [constructor |].
  cbv zeta. destruct (http_get _ w) as [res w1]; simpl.
  destruct (fetch_outcome res) as [[page |] | e |]; simpl.
  - destruct (py_get page.2 "next" PNone) as [nxt | e |]; simpl;
      try (constructor; [by eexists _, _ | constructor]).
    destruct (negb (truthy nxt)); simpl;
      [constructor; [by eexists _, _ | constructor] |].
    specialize (IH nxt None (count + 1) w1).
    destruct (generator fuel cid token pl nxt None (count + 1) w1)
      as [[r3 w3] t3]; simpl in *.
    constructor; [by eexists _, _ | done].
  - constructor; [by eexists _, _ |].
    destruct res as [? | [? |]]; simpl; constructor.
  - constructor; [by eexists _, _ | constructor].
  - constructor; [by eexists _, _ | constructor].
Qed.

(** A page that is yielded is the page read in the answer to the request
    before it. *)
Lemma generator_page_of_answer fuel cid token pl url params count w tr1 page tr2 :
  (generator fuel cid token pl url params count w).2 = tr1 ++ EPage page :: tr2 ->
  exists tr0 rq res,
    tr1 = tr0 ++ [EFetch rq res] /\ fetch_outcome res = Ret (Some page).
Proof.
  revert url params count w tr1.
  induction fuel as [| fuel IH]; intros url params count w tr1.
  { simpl. by destruct tr1. }
  rewrite generator_unfold.
  destruct (negb (pl =? 0) && (count >=? pl)); [by destruct tr1 |].
  cbv zeta. destruct (http_get _ w) as [res0 w1]; simpl.
  destruct (fetch_outcome res0) as [[page0 |] | e |] eqn:Hres; simpl.
  - destruct (py_get page0.2 "next" PNone) as [nxt | e |] eqn:Hnxt; simpl.
    + destruct (negb (truthy nxt)) eqn:Htr; simpl.
      * destruct tr1 as [| e1 [| e2 [| e3 tr1]]]; intros [=]; subst.
        by exists [], (page_request cid token url params), res0.
      * specialize (IH nxt None (count + 1) w1).
        destruct (generator fuel cid token pl nxt None (count + 1) w1)
          as [[r3 w3] t3]; simpl in *.
        destruct tr1 as [| e1 [| e2 tr1]]; intros [=]; subst.
        -- by exists [], (page_request cid token url params), res0.
        -- destruct (IH tr1 eq_refl) as (tr0 & rq & res & -> & Hrq).
           by exists (EFetch (page_request cid token url params) res0
                      :: EPage page0 :: tr0), rq, res.
    + destruct tr1 as [| e1 [| e2 [| e3 tr1]]]; intros [=]; subst.
      by exists [], (page_request cid token url params), res0.
    + destruct tr1 as [| e1 [| e2 [| e3 tr1]]]; intros [=]; subst.
      by exists [], (page_request cid token url params), res0.
  - destruct tr1 as [| e1 tr1]; intros [=]; subst.
    exfalso. destruct res0 as [? | [? |]]; simpl in *; try done;
      by destruct tr1 as [| ? [| ? ?]].
  - destruct tr1 as [| e1 [| e2 tr1]]; intros [=]; subst.
  - destruct tr1 as [| e1 [| e2 tr1]]; intros [=]; subst.
Qed.

(** X1: the requests of a traversal are chained by the cursors.  The
    first request goes to the messages URL of the conversation with the
    field selection as its only parameter; a request sent after a page
    goes to the next cursor of that page and has no parameters; every
    request carries the bearer token; and each page yielded is the page
    read in the answer to the request just before it. *)
Theorem iter_conversation_pages_request_chain cid token page_limit fuel w r w' tr :
  iter_conversation_pages cid token page_limit fuel w = (r, w', tr) ->
  (forall e tr',
     tr = e :: tr' ->
     exists rq res,
       e = EFetch rq res
       /\ req_url rq = PStr (conversation_messages_url cid)
       /\ req_params rq = Some [("fields", MESSAGE_FIELDS)])
  /\ (forall tr1 page rq res tr2,
        tr = tr1 ++ EPage page :: EFetch rq res :: tr2 ->
        exists d,
          page.2 = PDict d /\ truthy (dict_get_none d "next") = true
          /\ req_url rq = dict_get_none d "next" /\ req_params rq = None)
  /\ (forall rq,
        In rq (fetches tr) ->
        req_headers rq = [("Authorization", "Bearer " +:+ token)]
        /\ req_timeout rq = 30)
  /\ (forall tr1 page tr2,
        tr = tr1 ++ EPage page :: tr2 ->
        exists tr0 rq res,
          tr1 = tr0 ++ [EFetch rq res] /\ fetch_outcome res = Ret (Some page)).
Proof.
  unfold iter_conversation_pages, for_conversation_pages.
  fold (generator fuel cid token page_limit PNone (Some []) 0).
  intros Hrun. split; [| split; [| split]].
  - intros e tr' ->.
    pose proof (generator_head fuel cid token page_limit PNone (Some []) 0 w
                  e tr') as H.
    rewrite Hrun in H. destruct (H eq_refl) as [res ->].
    by eexists _, _.
  - intros tr1 page rq res tr2 ->.
    pose proof (generator_follows_next fuel cid token page_limit PNone (Some [])
                  0 w tr1 page rq res tr2) as H.
    rewrite Hrun in H. destruct (H eq_refl) as (d & Hd & Hnext & ->).
    exists d. split; [done |]. split; [done |].
    unfold page_request. rewrite Hnext. simpl.
    split; [done |]. by destruct (dict_get_none d "next").
  - intros rq Hrq.
    pose proof (generator_requests_shape fuel cid token page_limit PNone
                  (Some []) 0 w) as H.
    rewrite Hrun in H. simpl in H. rewrite Forall_forall in H.
    destruct (H rq) as (u & p & ->); [by apply list_elem_of_In | done].
  - intros tr1 page tr2 ->.
    pose proof (generator_page_of_answer fuel cid token page_limit PNone
                  (Some []) 0 w tr1 page tr2) as H.
    rewrite Hrun in H. by apply H.
Qed.

(** X2: a traversal under a ceiling [page_limit > 0] sends at most
    [page_limit] requests, and any traversal sends as many requests as it
    yields pages, or one more. *)
Theorem iter_conversation_pages_request_bound cid token page_limit fuel w :
  (0 < page_limit ->
   Z.of_nat (length (fetches (iter_conversation_pages cid token page_limit
                                fuel w).2)) <= page_limit)
  /\ (length (pages (iter_conversation_pages cid token page_limit fuel w).2)
       <= length (fetches (iter_conversation_pages cid token page_limit fuel w).2)
       <= S (length (pages (iter_conversation_pages cid token page_limit
                              fuel w).2)))%nat.
Proof.
  unfold iter_conversation_pages, for_conversation_pages.
  fold (generator fuel cid token page_limit PNone (Some []) 0).
  split.
  - intros Hpos.
    pose proof (generator_requests_bound fuel cid token page_limit PNone
                  (Some []) 0 w ltac:(lia)). lia.
  - apply generator_pages_requests.
Qed.

End RequestChain.

(** ** Reading a page *)

Section PageReading.
Context {TP : TimeParser} {T : Transport}.

(** X6: reading the parsed body raises exactly when the body is not a
    mapping or its [messages] field is there and is not a mapping, and
    then it raises [AttributeError]; in every other case it returns a
    page, whose paging is a true value or the empty mapping. *)
Theorem page_of_payload_raises_exactly payload :
  (page_of_payload payload = Raise AttributeError
   <-> (forall d, payload <> PDict d)
       \/ exists d v, payload = PDict d /\ dict_get d "messages" = Some v
                      /\ forall c, v <> PDict c)
  /\ ((exists page, page_of_payload payload = Ret page)
      \/ page_of_payload payload = Raise AttributeError)
  /\ forall page,
       page_of_payload payload = Ret page ->
       truthy page.2 = true \/ page.2 = PDict [].
Proof.
  assert (Hcases :
    (exists c, (payload = PDict c /\ dict_get c "messages" = None
                \/ exists d, payload = PDict d
                             /\ dict_get d "messages" = Some (PDict c))
               /\ page_of_payload payload
                  = Ret (match dict_get_default c "data" (PList []) with
                         | PList l => l
                         | _ => []
                         end,
                         py_or (dict_get_default c "paging" (PDict []))
                           (PDict [])))
    \/ (page_of_payload payload = Raise AttributeError
        /\ ((forall d, payload <> PDict d)
            \/ exists d v, payload = PDict d /\ dict_get d "messages" = Some v
                           /\ forall c, v <> PDict c))).
  { unfold page_of_payload.
    destruct payload as [| | | | | |d];
      try (right; split; [done |]; left; intros d; discriminate).
    simpl.
    destruct (dict_get d "messages") as [v |] eqn:Hm.
    - assert (dict_get_default d "messages" (PDict d) = v) as ->.
      { unfold dict_get_default. by rewrite Hm. }
      destruct v as [| | | | | |c];
        try (right; split; [done |]; right; eexists _, _;
             split; [done |]; split; [done |]; intros c; discriminate).
      left. exists c. split; [| done]. right. by exists d.
    - assert (dict_get_default d "messages" (PDict d) = PDict d) as ->.
      { unfold dict_get_default. by rewrite Hm. }
      left. exists d. split; [| done]. by left. }
  split; [| split].
  - split.
    + intros Hraise.
      destruct Hcases as [(c & _ & Hret) | [_ H]]; [congruence | done].
    + intros Hshape.
      destruct Hcases as [(c & Hok & _) | [H _]]; [| done].
      exfalso.
      destruct Hshape as [H | (d & v & -> & Hv & Hne)].
      * destruct Hok as [[-> _] | (d & -> & _)]; by eapply H.
      * destruct Hok as [[[= <-] Hnone] | (d' & [= <-] & Hsome)];
          [congruence |].
        rewrite Hsome in Hv. injection Hv as <-. by eapply Hne.
  - destruct Hcases as [(c & _ & Hret) | [H _]]; [left; by eexists | by right].
  - intros page Hpage.
    destruct Hcases as [(c & _ & Hret) | [H _]]; [| congruence].
    rewrite Hret in Hpage. injection Hpage as <-.
    cbn [snd]. unfold py_or.
    destruct (truthy (dict_get_default c "paging" (PDict []))) eqn:Ht;
      [by left | by right].
Qed.

(** X7: one call of the page fetcher sends exactly one request, whatever
    comes of it, and leaves the remote side as that request left it; it
    returns the failure value exactly when the request raised or the
    body was not JSON, and it prints nothing exactly when neither
    happened. *)
Theorem fetch_conversation_page_one_request cid token url params w :
  let run := fetch_conversation_page cid token url params w in
  let answer := (http_get (page_request cid token url params) w).1 in
  fetches run.2 = [page_request cid token url params]
  /\ run.1.2 = (http_get (page_request cid token url params) w).2
  /\ (run.1.1 = Ret None <-> failed answer = true)
  /\ (run.2 = [EFetch (page_request cid token url params) answer]
      <-> failed answer = false).
Proof.
  cbv zeta. rewrite fetch_conversation_page_run. simpl.
  destruct (http_get _ w) as [res w1]; simpl.
  destruct res as [exc | [payload |]]; simpl.
  - repeat split; try done.
  - split; [done |]. split; [done |]. split.
    + split; [| done]. by destruct (page_of_payload payload).
    + done.
  - repeat split; try done.
Qed.

End PageReading.

(** ** The two orders of the stream *)

Section OrderModes.
Context {TP : TimeParser} {T : Transport}.

Lemma fetches_of_yields l : fetches (map EYield l) = [].
Proof. by induction l. Qed.

Lemma flat_map_sorted_perm (l : list (list pyval * pyval)) :
  Permutation (flat_map page_messages l)
    (flat_map (fun page => sort_messages true (page_messages page)) l).
Proof.
  induction l as [| p l IH]; simpl; [done |].
  apply Permutation_app; [| done].
  apply (sort_messages_spec true).
Qed.

(** X3: on a traversal that returns, with messages whose keys are well
    typed (a creation timestamp that is absent or a string, a string
    identifier), the order asked for changes neither the requests sent
    nor the messages yielded, only their order: the ascending run and a
    run in another order send the same requests and yield the same
    messages up to a permutation, which are the normalized messages of
    the pages. *)
Theorem iter_enriched_messages_modes_agree cid token order page_limit fuel w w' tr :
  order <> "asc" ->
  iter_conversation_pages cid token page_limit fuel w = (Ret tt, w', tr) ->
  Forall (fun m => str_keyed m = true) (flat_map page_messages (pages tr)) ->
  fetches (iter_enriched_messages cid token "asc" page_limit fuel w).2
  = fetches (iter_enriched_messages cid token order page_limit fuel w).2
  /\ Permutation
       (yields (iter_enriched_messages cid token "asc" page_limit fuel w).2)
       (yields (iter_enriched_messages cid token order page_limit fuel w).2)
  /\ Permutation (flat_map page_messages (pages tr))
       (yields (iter_enriched_messages cid token "asc" page_limit fuel w).2).
Proof.
  intros Horder Hgen Hkeyed. apply String.eqb_neq in Horder.
  rewrite (iter_enriched_messages_asc cid token page_limit fuel w w' tr Hgen Hkeyed).
  rewrite (iter_enriched_messages_desc cid token order page_limit fuel w w' tr
             Horder Hgen Hkeyed).
  cbn [snd].
  pose proof (iter_conversation_pages_no_yield cid token page_limit fuel w) as Hno.
  rewrite Hgen in Hno. cbn [snd] in Hno.
  assert (Hasc : yields (flat_map (substitute page_notices) tr) = []).
  { rewrite yields_substitute by done. clear.
    induction (pages tr) as [| p l IH]; simpl; [done |].
    by rewrite yields_page_notices. }
  assert (Hdesc : yields (flat_map (substitute page_descending) tr)
                  = flat_map (fun page => sort_messages true (page_messages page))
                      (pages tr)).
  { rewrite yields_substitute by done. clear.
    induction (pages tr) as [| p l IH]; simpl; [done |].
    unfold page_descending at 1.
    by rewrite yields_app, yields_page_notices, yields_map_EYield, IH. }
  split; [| split].
  - rewrite fetches_app, (fetches_substitute page_notices)
      by apply fetches_page_notices.
    rewrite (fetches_substitute page_descending).
    + by rewrite fetches_of_yields, app_nil_r.
    + intros page. unfold page_descending.
      by rewrite fetches_app, fetches_page_notices, fetches_of_yields.
  - rewrite yields_app, Hasc, yields_map_EYield, Hdesc. simpl.
    etrans; [symmetry; apply (sort_messages_spec false) |].
    apply flat_map_sorted_perm.
  - rewrite yields_app, Hasc, yields_map_EYield. simpl.
    apply (sort_messages_spec false).
Qed.

(** *** Descending is ascending reversed when the keys are distinct *)

Lemma NoDup_map_inj {A B} (f : A -> B) (l : list A) x y :
  NoDup (map f l) -> In x l -> In y l -> f x = f y -> x = y.
Proof.
  induction l as [| a l IH]; simpl; [done |].
  intros Hnd [-> | Hx] [-> | Hy] Hf; try done.
  - apply NoDup_cons in Hnd as [Hnotin _]. exfalso. apply Hnotin.
    rewrite Hf. apply list_elem_of_In, in_map. done.
  - apply NoDup_cons in Hnd as [Hnotin _]. exfalso. apply Hnotin.
    rewrite <- Hf. apply list_elem_of_In, in_map. done.
  - apply NoDup_cons in Hnd as [_ Hnd]. by apply IH.
Qed.

Lemma sort_ascending_unique l l' :
  NoDup (map ordering_key l) ->
  Permutation l l' -> ascending l' -> l' = sort_ascending l.
Proof.
  intros Hnd Hperm Hasc.
  apply (StronglySorted_unique_strong
           (fun a b => ordering_key_le (ordering_key a) (ordering_key b)));
    [| done | apply sort_ascending_ascending |].
  - intros x1 x2 H1 H2 Hle1 Hle2.
    apply (NoDup_map_inj ordering_key l); [done | | |].
    + apply list_elem_of_In. by rewrite Hperm.
    + apply list_elem_of_In. by rewrite (sort_ascending_perm l).
    + by apply ordering_key_le_antisym.
  - rewrite <- Hperm. apply sort_ascending_perm.
Qed.

Lemma sort_messages_reverse l :
  NoDup (map ordering_key l) ->
  sort_messages true l = rev (sort_messages false l).
Proof.
  intros Hnd. unfold sort_messages. f_equal. symmetry.
  apply sort_ascending_unique; [| | apply sort_ascending_ascending].
  - rewrite map_rev, <- Permutation_rev. done.
  - rewrite <- sort_ascending_perm. symmetry. apply Permutation_rev.
Qed.

Lemma yields_iter_enriched_asc cid token pl fuel w w' tr :
  iter_conversation_pages cid token pl fuel w = (Ret tt, w', tr) ->
  Forall (fun m => str_keyed m = true) (flat_map page_messages (pages tr)) ->
  yields (iter_enriched_messages cid token "asc" pl fuel w).2
  = sort_messages false (flat_map page_messages (pages tr)).
Proof.
  intros Hgen Hkeyed.
  rewrite (iter_enriched_messages_asc cid token pl fuel w w' tr Hgen Hkeyed).
  cbn [snd].
  pose proof (iter_conversation_pages_no_yield cid token pl fuel w) as Hno.
  rewrite Hgen in Hno. cbn [snd] in Hno.
  rewrite yields_app, yields_map_EYield, yields_substitute by done.
  assert (flat_map (fun page => yields (page_notices page)) (pages tr) = [])
    as ->; [| done].
  clear. induction (pages tr) as [| p l IH]; simpl; [done |].
  by rewrite yields_page_notices.
Qed.

Lemma yields_iter_enriched_desc cid token order pl fuel w w' tr :
  order <> "asc" ->
  iter_conversation_pages cid token pl fuel w = (Ret tt, w', tr) ->
  Forall (fun m => str_keyed m = true) (flat_map page_messages (pages tr)) ->
  yields (iter_enriched_messages cid token order pl fuel w).2
  = flat_map (fun page => sort_messages true (page_messages page)) (pages tr).
Proof.
  intros Horder Hgen Hkeyed. apply String.eqb_neq in Horder.
  rewrite (iter_enriched_messages_desc cid token order pl fuel w w' tr
             Horder Hgen Hkeyed).
  cbn [snd].
  pose proof (iter_conversation_pages_no_yield cid token pl fuel w) as Hno.
  rewrite Hgen in Hno. cbn [snd] in Hno.
  rewrite yields_substitute by done. clear.
  induction (pages tr) as [| p l IH]; simpl; [done |].
  unfold page_descending at 1.
  by rewrite yields_app, yields_page_notices, yields_map_EYield, IH.
Qed.

(** X4: when the traversal returns after it has yielded a single page,
    whose messages have well-typed keys no two of which are the same
    Ordering Key, the run in an order other than ["asc"] yields the
    messages of the ascending run in reverse. *)
Theorem descending_reverses_ascending_on_one_page
    cid token order page_limit fuel w w' tr page :
  order <> "asc" ->
  iter_conversation_pages cid token page_limit fuel w = (Ret tt, w', tr) ->
  pages tr = [page] ->
  Forall (fun m => str_keyed m = true) (page_messages page) ->
  NoDup (map ordering_key (page_messages page)) ->
  yields (iter_enriched_messages cid token order page_limit fuel w).2
  = rev (yields (iter_enriched_messages cid token "asc" page_limit fuel w).2).
Proof.
  intros Horder Hgen Hpages Hkeyed Hnd.
  assert (Hall : Forall (fun m => str_keyed m = true)
                   (flat_map page_messages (pages tr))).
  { rewrite Hpages. simpl. by rewrite app_nil_r. }
  rewrite (yields_iter_enriched_desc cid token order page_limit fuel w w' tr)
    by done.
  rewrite (yields_iter_enriched_asc cid token page_limit fuel w w' tr) by done.
  rewrite Hpages. simpl. rewrite !app_nil_r.
  by apply sort_messages_reverse.
Qed.

End OrderModes.

Section TraversalExceptions.
Context {TP : TimeParser} {T : Transport}.

(** X5: with messages whose keys are well typed, an exception in the
    traversal costs the ascending mode all its output, and the
    descending mode none of what came before it: when the traversal
    raises, the ascending run raises the same exception without having
    yielded anything, while a run in another order raises it after it
    has yielded, page by page, the messages of every page that
    arrived. *)
Theorem exception_discards_ascending_output
    cid token order page_limit fuel w e w' tr :
  order <> "asc" ->
  iter_conversation_pages cid token page_limit fuel w = (Raise e, w', tr) ->
  Forall (fun m => str_keyed m = true) (flat_map page_messages (pages tr)) ->
  (iter_enriched_messages cid token "asc" page_limit fuel w).1 = (Raise e, w')
  /\ yields (iter_enriched_messages cid token "asc" page_limit fuel w).2 = []
  /\ (iter_enriched_messages cid token order page_limit fuel w).1
     = (Raise e, w')
  /\ yields (iter_enriched_messages cid token order page_limit fuel w).2
     = flat_map (fun page => sort_messages true (page_messages page))
         (pages tr).
Proof.
  intros Horder Hgen Hkeyed. apply String.eqb_neq in Horder.
  pose proof (iter_conversation_pages_no_yield cid token page_limit fuel w)
    as Hno.
  rewrite Hgen in Hno. cbn [snd] in Hno.
  assert (Hasc : iter_enriched_messages cid token "asc" page_limit fuel w
                 = (Raise e, w', flat_map (substitute page_notices) tr)).
  { unfold iter_enriched_messages, for_conversation_pages. simpl.
    unfold bind.
    rewrite (pages_loop_consumer
               (fun collected page => normalize_into collected page.1)
               (fun collected page => collected ++ page_messages page)
               page_notices fuel cid token page_limit PNone (Some []) 0 [] w
               (Raise e) w' tr Hgen).
    2: { intros page _ s w0. apply normalize_into_run. }
    done. }
  assert (Hdesc : iter_enriched_messages cid token order page_limit fuel w
                  = (Raise e, w', flat_map (substitute page_descending) tr)).
  { unfold iter_enriched_messages, for_conversation_pages. rewrite Horder.
    rewrite (pages_loop_consumer _ (fun _ _ => tt) page_descending
               fuel cid token page_limit PNone (Some []) 0 tt w
               (Raise e) w' tr Hgen).
    { done. }
    intros page Hpage [] w0. unfold bind. rewrite normalize_into_run. simpl.
    unfold page_descending, page_notices. fold (page_messages page).
    assert (Hk : Forall (fun m => str_keyed m = true) (page_messages page)).
    { rewrite Forall_forall in Hkeyed |- *. intros m Hm. apply Hkeyed.
      apply list_elem_of_In, in_flat_map. exists page.
      split; [done | by apply list_elem_of_In]. }
    destruct (page_messages page) as [| m l] eqn:Hmsgs.
    { by rewrite sort_messages_nil. }
    unfold lift. rewrite (list_sort_str_keyed true _ Hk).
    by rewrite yield_all_run. }
  rewrite Hasc, Hdesc. cbn [fst snd]. split; [done |]. split.
  - rewrite yields_substitute by done. clear.
    induction (pages tr) as [| p l IH]; simpl; [done |].
    by rewrite yields_page_notices.
  - split; [done |]. rewrite yields_substitute by done. clear.
    induction (pages tr) as [| p l IH]; simpl; [done |].
    unfold page_descending at 1.
    by rewrite yields_app, yields_page_notices, yields_map_EYield, IH.
Qed.

End TraversalExceptions.

(** ** The pages of a pager *)

Section PagerPages.
Context {TP : TimeParser} {T : Transport}.

Lemma list_sort_sorted reverse l sorted :
  list_sort key reverse l = Ret sorted ->
  Forall (fun m => str_keyed m = true) sorted ->
  sorted = sort_messages reverse l.
Proof.
  intros Hsort Hkeyed.
  assert (Hl : Forall (fun m => str_keyed m = true) l).
  { apply list_sort_perm in Hsort. by rewrite Hsort. }
  rewrite (list_sort_str_keyed reverse l Hl) in Hsort. congruence.
Qed.

Lemma fetch_page_ordered self c w o self' w' tr :
  cache_ordered self ->
  fetch_page self c w = (Ret (o, self'), w', tr) ->
  cache_ordered self'.
Proof.
  intros Hinv. rewrite fetch_page_unfold.
  destruct (_cache self !! c) as [page |] eqn:Hc.
  { by intros [= <- <- <- <-]. }
  destruct (ceiling_reached self).
  { by intros [= <- <- <- <-]. }
  cbv zeta. destruct (http_get _ w) as [res w1]; simpl.
  destruct (fetch_outcome res) as [[page |] | e |]; try done.
  - destruct (list_sort _ _ _) as [sorted | e |] eqn:Hsort; try done.
    intros [= <- <- <- <-].
    intros c' page'. simpl. rewrite lookup_insert.
    case_decide as Hcc.
    + intros [= <-]. simpl. split; [done |].
      intros Hkeyed. unfold page_in_order. simpl.
      rewrite (list_sort_sorted _ _ _ Hsort Hkeyed).
      pose proof (sort_messages_spec (String.eqb (_order self) "desc")
                    (page_messages page)) as (_ & Hord & _).
      by destruct (String.eqb (_order self) "desc").
    + apply Hinv.
  - by intros [= <- <- <- <-].
Qed.

Lemma reachable_ordered init self :
  reachable init self -> cache_ordered init -> cache_ordered self.
Proof.
  induction 1 as [| s1 c1 w o s2 w' tr _ IH Hcall]; [done |].
  intros Hinit. eapply fetch_page_ordered; [| exact Hcall]. by apply IH.
Qed.

(** X8: whatever calls a pager has served, a Page it returns carries the
    cursor it was asked for, and its messages, when their keys are
    well typed, are in the order the pager was built for: descending
    for ["desc"], ascending for any other order string. *)
Theorem pager_pages_ordered cid token order page_limit self c w page self' w' tr :
  reachable (ConversationPager_init cid token order page_limit) self ->
  fetch_page self c w = (Ret (Some page, self'), w', tr) ->
  identifier page = c
  /\ (Forall (fun m => str_keyed m = true) (messages page) ->
      if String.eqb order "desc" then descending (messages page)
      else ascending (messages page)).
Proof.
  intros Hreach Hcall.
  assert (Hreach' : reachable (ConversationPager_init cid token order page_limit)
                      self').
  { eapply reachable_call; eauto. }
  pose proof (reachable_ordered _ _ Hreach') as Hord.
  destruct (reachable_invariant _ _ Hreach' (init_invariant _ _ _ _))
    as (_ & _ & _ & _ & Horder).
  simpl in Horder.
  destruct (Hord ltac:(intros c0 p0; simpl; by rewrite lookup_empty) c page)
    as [Hid Hsorted].
  { eapply fetch_page_caches; eauto. }
  split; [done |]. intros Hkeyed. specialize (Hsorted Hkeyed).
  unfold page_in_order in Hsorted. by rewrite Horder in Hsorted.
Qed.

(** X9: a pager built with a ceiling [page_limit > 0] never holds more
    than [page_limit] pages, and its counter is the number of pages it
    holds: calls that fail or are served from the cache do not count. *)
Theorem pager_cache_bounded cid token order page_limit self :
  0 < page_limit ->
  reachable (ConversationPager_init cid token order page_limit) self ->
  _fetched self = Z.of_nat (size (_cache self))
  /\ Z.of_nat (size (_cache self)) <= page_limit
  /\ _page_limit self = page_limit.
Proof.
  intros Hpos Hreach.
  induction Hreach as [| s1 c1 w o s2 w' tr Hreach IH Hcall].
  { simpl. rewrite map_size_empty. lia. }
  destruct IH as (Hf & Hsize & Hpl).
  apply fetch_page_cases in Hcall.
  destruct Hcall as [| | |p w' rq res notices Hc Hceil]; try done.
  simpl. rewrite map_size_insert_None by done.
  unfold ceiling_reached in Hceil. rewrite Hpl in Hceil.
  apply andb_false_iff in Hceil as [Hz | Hlt].
  - apply negb_false_iff, Z.eqb_eq in Hz. lia.
  - rewrite Z.geb_leb in Hlt. apply Z.leb_gt in Hlt. lia.
Qed.

End PagerPages.

Section PagerAndStream.
Context {TP : TimeParser} {T : Transport}.

Lemma list_sort_nil {A} (keyf : A -> outcome (Z * pyval)) reverse :
  list_sort keyf reverse [] = Ret [].
Proof. by destruct reverse. Qed.

(** A pager that holds nothing sends the request of the first page. *)
Lemma fetch_page_first cid token order pl w :
  fetch_page (ConversationPager_init cid token order pl) None w
  = let rq := page_request cid token PNone (Some []) in
    let res := (http_get rq w).1 in
    let w1 := (http_get rq w).2 in
    match fetch_outcome res with
    | Ret (Some page) =>
        match list_sort key (String.eqb order "desc") (page_messages page) with
        | Ret sorted =>
            (Ret (Some (page_of None sorted page.2),
                  with_page (ConversationPager_init cid token order pl) None
                    (page_of None sorted page.2)),
             w1, EFetch rq res :: flat_map rejection_notice page.1)
        | Raise e =>
            (Raise e, w1, EFetch rq res :: flat_map rejection_notice page.1)
        | OutOfFuel =>
            (OutOfFuel, w1, EFetch rq res :: flat_map rejection_notice page.1)
        end
    | Ret None => (Ret (None, ConversationPager_init cid token order pl), w1,
                   EFetch rq res :: failure_notice cid res)
    | Raise e => (Raise e, w1, [EFetch rq res])
    | OutOfFuel => (OutOfFuel, w1, [EFetch rq res])
    end.
Proof.
  rewrite fetch_page_unfold. simpl. rewrite lookup_empty.
  assert (ceiling_reached (ConversationPager_init cid token order pl) = false)
    as ->; [| done].
  unfold ceiling_reached. simpl.
  destruct (Z.max pl 0 =? 0) eqn:Hz; [done |]. simpl.
  apply Z.eqb_neq in Hz. rewrite Z.geb_leb. apply Z.leb_gt. lia.
Qed.

(** The traversal with ceiling 1 sends one request and runs its consumer
    once, on the page of the answer. *)
Lemma pages_loop_one_page {S} (body : S -> list pyval * pyval -> M S)
    fuel cid token s w s' w' tr :
  pages_loop fuel cid token 1 body PNone (Some []) 0 s w = (Ret s', w', tr) ->
  let rq := page_request cid token PNone (Some []) in
  match fetch_outcome (http_get rq w).1 with
  | Ret (Some page) =>
      exists t2, body s page (http_get rq w).2 = (Ret s', w', t2)
                 /\ tr = EFetch rq (http_get rq w).1 :: t2
  | Ret None =>
      s' = s /\ w' = (http_get rq w).2
      /\ tr = EFetch rq (http_get rq w).1
              :: failure_notice cid (http_get rq w).1
  | _ => False
  end.
Proof.
  destruct fuel as [| fuel]; [done |].
  rewrite pages_loop_unfold. simpl negb. simpl andb. cbv iota zeta.
  destruct (http_get _ w) as [res w1]; simpl.
  destruct (fetch_outcome res) as [[page |] | e |]; try done.
  - destruct (body s page w1) as [[[s1 | e |] w2] t2]; try done.
    destruct (py_get page.2 "next" PNone) as [nxt | e |]; try done.
    destruct (negb (truthy nxt)).
    { intros [= <- <- <-]. by eexists. }
    destruct fuel as [| fuel]; [done |].
    rewrite pages_loop_unfold. simpl.
    intros [= <- <- <-]. rewrite app_nil_r. by eexists.
  - by intros [= <- <- <-].
Qed.

Lemma fetches_failure_notice cid res : fetches (failure_notice cid res) = [].
Proof. by destruct res as [? | [? |]]. Qed.

Lemma yields_failure_notice cid res : yields (failure_notice cid res) = [].
Proof. by destruct res as [? | [? |]]. Qed.

(** The stream with ceiling 1: one request, and the messages of its page
    sorted once. *)
Lemma iter_enriched_messages_one_page cid token order fuel w w' tr :
  iter_enriched_messages cid token order 1 fuel w = (Ret tt, w', tr) ->
  let rq := page_request cid token PNone (Some []) in
  w' = (http_get rq w).2
  /\ fetches tr = [rq]
  /\ forall page,
       fetch_outcome (http_get rq w).1 = Ret (Some page) ->
       list_sort key (negb (String.eqb order "asc")) (page_messages page)
       = Ret (yields tr).
Proof.
  unfold iter_enriched_messages, for_conversation_pages.
  destruct (String.eqb order "asc") eqn:Horder; simpl negb.
  - unfold bind at 1.
    destruct (pages_loop fuel cid token 1 _ PNone (Some []) 0 [] w)
      as [[[collected | e |] w1] t1] eqn:Hloop; try done.
    apply pages_loop_one_page in Hloop. cbv zeta in Hloop. cbv zeta.
    destruct (fetch_outcome _) as [[page |] | e |]; try done.
    + destruct Hloop as (t2 & Hbody & ->).
      rewrite normalize_into_run in Hbody. injection Hbody as <- <- <-.
      simpl app. fold (page_messages page).
      destruct (page_messages page) as [| m l] eqn:Hm.
      * intros [= <- <-]. split; [done |]. split.
        { simpl. by rewrite app_nil_r, fetches_rejection_notices. }
        intros page' [= <-]. rewrite Hm, list_sort_nil.
        simpl. by rewrite app_nil_r, yields_rejection_notices.
      * unfold bind at 1, lift at 1.
        destruct (list_sort key false (m :: l)) as [sorted | e |] eqn:Hsort;
          try done.
        rewrite yield_all_run. intros [= <- <-]. split; [done |]. split.
        { simpl. rewrite !fetches_app, fetches_rejection_notices.
          simpl. by rewrite fetches_of_yields. }
        intros page' [= <-]. rewrite Hm, Hsort. simpl.
        by rewrite !yields_app, yields_rejection_notices, yields_map_EYield.
    + destruct Hloop as (-> & -> & ->). intros [= <- <-].
      split; [done |]. split; [| done].
      simpl. by rewrite app_nil_r, fetches_failure_notice.
  - intros Hloop.
    apply pages_loop_one_page in Hloop. cbv zeta in Hloop. cbv zeta.
    destruct (fetch_outcome _) as [[page |] | e |]; try done.
    + destruct Hloop as (t2 & Hbody & ->).
      unfold bind at 1 in Hbody. rewrite normalize_into_run in Hbody.
      rewrite app_nil_l in Hbody. fold (page_messages page) in Hbody.
      destruct (page_messages page) as [| m l] eqn:Hm.
      * injection Hbody as <- <-. split; [done |]. split.
        { simpl. by rewrite app_nil_r, fetches_rejection_notices. }
        intros page' [= <-]. rewrite Hm, list_sort_nil.
        simpl. by rewrite app_nil_r, yields_rejection_notices.
      * unfold bind at 1, lift at 1 in Hbody.
        destruct (list_sort key true (m :: l)) as [sorted | e |] eqn:Hsort;
          try done.
        rewrite yield_all_run in Hbody. injection Hbody as <- <-.
        split; [done |]. split.
        { simpl. rewrite !fetches_app, fetches_rejection_notices.
          simpl. by rewrite fetches_of_yields. }
        intros page' [= <-]. rewrite Hm, Hsort. simpl.
        by rewrite !yields_app, yields_rejection_notices, yields_map_EYield.
    + destruct Hloop as (_ & -> & ->).
      split; [done |]. split; [| done].
      simpl. by rewrite fetches_failure_notice.
Qed.

(** X10: when the stream with ceiling 1 returns without an exception
    and a pager that holds nothing returns a Page for the first cursor,
    both from the same state of the remote side, the two have sent the
    same single request and left the remote side in the same state, and
    they give the same messages: in the same order when the order is
    ["asc"] or ["desc"]; for any other order string the stream sorts
    descending and the pager ascending, so that, keys being well typed
    and distinct, one is the other reversed. *)
Theorem pager_first_page_is_stream_of_one_page
    cid token order page_limit fuel w w1 tr page self' w2 tr' :
  iter_enriched_messages cid token order 1 fuel w = (Ret tt, w1, tr) ->
  fetch_page (ConversationPager_init cid token order page_limit) None w
  = (Ret (Some page, self'), w2, tr') ->
  fetches tr = fetches tr' /\ w1 = w2
  /\ Permutation (yields tr) (messages page)
  /\ (order = "asc" \/ order = "desc" -> yields tr = messages page)
  /\ (order <> "asc" -> order <> "desc" ->
      Forall (fun m => str_keyed m = true) (messages page) ->
      NoDup (map ordering_key (messages page)) ->
      yields tr = rev (messages page)).
Proof.
  intros Hstream Hpager.
  apply iter_enriched_messages_one_page in Hstream.
  cbv zeta in Hstream. destruct Hstream as (-> & Hfetches & Hyields).
  rewrite fetch_page_first in Hpager. cbv zeta in Hpager.
  destruct (fetch_outcome _) as [[fetched |] | e |]; try done.
  specialize (Hyields fetched eq_refl).
  destruct (list_sort key (String.eqb order "desc") (page_messages fetched))
    as [sorted | e |] eqn:Hsort; try done.
  injection Hpager as <- <- <- <-.
  split. { simpl. by rewrite fetches_rejection_notices. }
  split; [done |]. simpl messages.
  split. { apply list_sort_perm in Hyields, Hsort. by rewrite <- Hyields. }
  split.
  - intros [-> | ->]; simpl in Hyields, Hsort; congruence.
  - intros Hasc Hdesc Hkeyed Hnd.
    apply String.eqb_neq in Hasc, Hdesc. rewrite Hasc in Hyields.
    rewrite Hdesc in Hsort. simpl in Hyields.
    pose proof (list_sort_perm _ _ _ _ Hsort) as Hperm.
    assert (Hl : Forall (fun m => str_keyed m = true) (page_messages fetched)).
    { by rewrite Hperm. }
    rewrite (list_sort_str_keyed true _ Hl) in Hyields.
    rewrite (list_sort_str_keyed false _ Hl) in Hsort.
    injection Hyields as <-. injection Hsort as <-.
    apply sort_messages_reverse. by rewrite Hperm.
Qed.

End PagerAndStream.

(** ** Trimmed text *)

Lemma string_app_cons c (s t : string) :
  String c s +:+ t = String c (s +:+ t).
Proof. reflexivity. Qed.

Lemma string_app_nil_r (s : string) : s +:+ "" = s.
Proof.
  induction s as [| c s IH]; [done |]. by rewrite string_app_cons, IH.
Qed.

Lemma string_app_assoc (a b c : string) : (a +:+ b) +:+ c = a +:+ (b +:+ c).
Proof.
  induction a as [| x a IH]; [done |]. by rewrite !string_app_cons, IH.
Qed.

Lemma string_rev_onto_twice s a b :
  string_rev_onto (string_rev_onto s a) b = string_rev_onto a (s +:+ b).
Proof.
  revert a b. induction s as [| c s IH]; intros a b; [done |].
  rewrite string_app_cons. simpl. by rewrite IH.
Qed.

Lemma string_rev_involutive s : string_rev (string_rev s) = s.
Proof.
  unfold string_rev. rewrite string_rev_onto_twice. simpl.
  apply string_app_nil_r.
Qed.

Lemma string_rev_onto_app a b acc :
  string_rev_onto (a +:+ b) acc = string_rev_onto b (string_rev_onto a acc).
Proof.
  revert acc. induction a as [| c a IH]; intros acc; [done |].
  rewrite string_app_cons. simpl. by rewrite IH.
Qed.

Lemma string_rev_onto_acc s acc :
  string_rev_onto s acc = string_rev s +:+ acc.
Proof.
  unfold string_rev. revert acc.
  induction s as [| c s IH]; intros acc; simpl; [done |].
  rewrite IH, (IH (String c "")).
  by rewrite string_app_assoc.
Qed.

Lemma string_rev_app a b :
  string_rev (a +:+ b) = string_rev b +:+ string_rev a.
Proof.
  unfold string_rev at 1. rewrite string_rev_onto_app.
  by rewrite string_rev_onto_acc.
Qed.

(** [lstrip] stops at a string that starts clean. *)
Lemma lstrip_starts_clean s : starts_clean (lstrip s) = true.
Proof.
  assert (H : forall n s, (String.length s <= n)%nat ->
                          starts_clean (lstrip s) = true).
  2: { by apply (H (String.length s)). }
  clear s. induction n as [| n IH]; intros s Hlen.
  { destruct s; [done | simpl in Hlen; lia]. }
  destruct s as [| c1 s1]; [done |]. simpl in Hlen. simpl.
  destruct (is_space1 c1) eqn:H1. { apply IH. lia. }
  destruct s1 as [| c2 s2]. { simpl. by rewrite H1. }
  simpl in Hlen.
  destruct (is_space2 c1 c2) eqn:H2. { apply IH. lia. }
  destruct s2 as [| c3 s3]. { simpl. by rewrite H1, H2. }
  simpl in Hlen.
  destruct (is_space3 c1 c2 c3) eqn:H3. { apply IH. lia. }
  simpl. by rewrite H1, H2, H3.
Qed.

Lemma lstrip_clean s : starts_clean s = true -> lstrip s = s.
Proof.
  destruct s as [| c1 [| c2 [| c3 s3]]]; simpl; try done.
  - by destruct (is_space1 c1).
  - destruct (is_space1 c1); [done |]. by destruct (is_space2 c1 c2).
  - destruct (is_space1 c1); [done |]. destruct (is_space2 c1 c2); [done |].
    by destruct (is_space3 c1 c2 c3).
Qed.

Lemma starts_clean_prefix p u :
  starts_clean (p +:+ u) = true -> starts_clean p = true.
Proof.
  destruct p as [| c1 [| c2 [| c3 p3]]]; rewrite ?string_app_cons;
    simpl; try done.
  - destruct (is_space1 c1); [done |]. done.
  - destruct (is_space1 c1); [done |]. simpl.
    destruct (is_space2 c1 c2); [done |]. done.
Qed.

(** The scan from the right leaves a suffix of the reversed string that
    it does not shorten again. *)
Lemma lstrip_rev_suffix r :
  exists v, r = v +:+ lstrip_rev r /\ lstrip_rev (lstrip_rev r) = lstrip_rev r.
Proof.
  assert (H : forall n r, (String.length r <= n)%nat ->
    exists v, r = v +:+ lstrip_rev r
              /\ lstrip_rev (lstrip_rev r) = lstrip_rev r).
  2: { by apply (H (String.length r)). }
  clear r. induction n as [| n IH]; intros r Hlen.
  { destruct r; [by exists "" | simpl in Hlen; lia]. }
  destruct r as [| c1 s1]; [by exists "" |]. simpl in Hlen. simpl.
  destruct (is_space1 c1) eqn:H1.
  { destruct (IH s1 ltac:(lia)) as (v & Hv & Hi).
    exists (String c1 v). by rewrite string_app_cons, <- Hv. }
  destruct s1 as [| c2 s2]. { exists "". simpl. by rewrite H1. }
  simpl in Hlen.
  destruct (is_space2 c2 c1) eqn:H2.
  { destruct (IH s2 ltac:(lia)) as (v & Hv & Hi).
    exists (String c1 (String c2 v)). by rewrite !string_app_cons, <- Hv. }
  destruct s2 as [| c3 s3]. { exists "". simpl. by rewrite H1, H2. }
  simpl in Hlen.
  destruct (is_space3 c3 c2 c1) eqn:H3.
  { destruct (IH s3 ltac:(lia)) as (v & Hv & Hi).
    exists (String c1 (String c2 (String c3 v))).
    by rewrite !string_app_cons, <- Hv. }
  exists "". simpl. by rewrite H1, H2, H3.
Qed.

Lemma rstrip_prefix t : exists u, t = rstrip t +:+ u.
Proof.
  unfold rstrip.
  destruct (lstrip_rev_suffix (string_rev t)) as (v & Hv & _).
  exists (string_rev v).
  rewrite <- string_rev_app, <- Hv. by rewrite string_rev_involutive.
Qed.

Lemma rstrip_idempotent t : rstrip (rstrip t) = rstrip t.
Proof.
  unfold rstrip. rewrite string_rev_involutive.
  destruct (lstrip_rev_suffix (string_rev t)) as (v & _ & Hi).
  by rewrite Hi.
Qed.

(** Trimmed text is left as it is by a second trim. *)
Lemma strip_idempotent s : strip (strip s) = strip s.
Proof.
  unfold strip.
  destruct (rstrip_prefix (lstrip s)) as (u & Hu).
  rewrite (lstrip_clean (rstrip (lstrip s))).
  - apply rstrip_idempotent.
  - apply (starts_clean_prefix _ u). rewrite <- Hu. apply lstrip_starts_clean.
Qed.

Lemma trimmed_stripped v t : trimmed v = Some t -> t <> "" /\ strip t = t.
Proof.
  unfold trimmed. destruct v as [| | | |s| |]; try done.
  destruct (String.eqb (strip s) "") eqn:He; [done |].
  intros [= <-]. split; [by apply String.eqb_neq | apply strip_idempotent].
Qed.

Lemma first_text_stripped l t :
  first_text l = Some t -> t <> "" /\ strip t = t.
Proof.
  induction l as [| v l IH]; [done |]. rewrite first_text_cons.
  destruct (trimmed v) as [t' |] eqn:Hv; [| done].
  intros [= <-]. by eapply trimmed_stripped.
Qed.

(** X11: a text that extraction returns is never empty and carries no
    white space at either end: trimming it again changes nothing. *)
Theorem extract_message_text_trimmed data text :
  extract_message_text data = Ret (Some text) ->
  text <> "" /\ strip text = text.
Proof.
  rewrite extract_message_text_total.
  destruct (first_text (_ :: _)) as [t |] eqn:Hfirst.
  - intros [= <-]. by eapply first_text_stripped.
  - destruct (attachment_entries data) as [entries | e |]; simpl; try done.
    intros [= Ht]. by eapply first_text_stripped.
Qed.

(** ** Conversation identifiers and history keys *)

Lemma ids_of_lines_clean lines :
  Forall (fun i => i <> "" /\ strip i = i) (ids_of_lines lines).
Proof.
  induction lines as [| line rest IH]; simpl; [constructor |].
  destruct (String.eqb (strip line) "") eqn:He; simpl; [done |].
  constructor; [| done].
  split; [by apply String.eqb_neq | apply strip_idempotent].
Qed.

(** X12: the identifiers of a run are those of the command line, as they
    were given and in their order, followed by those of the file, each
    of which is a line trimmed and not empty; whatever happens to the
    file, the identifiers of the command line are yielded, and at most
    one error is printed. *)
Theorem iter_conversation_ids_sequence open_ args :
  exists from_file,
    (iter_conversation_ids open_ args).1 = ids args ++ from_file
    /\ Forall (fun i => i <> "" /\ strip i = i) from_file
    /\ (length (iter_conversation_ids open_ args).2 <= 1)%nat
    /\ ((iter_conversation_ids open_ args).2 <> [] ->
        exists path, ids_file args = Some path
                     /\ (open_ path).2 <> None).
Proof.
  unfold iter_conversation_ids.
  assert (Hargs : match ids args with [] => [] | _ => ids args end = ids args).
  { by destruct (ids args). }
  rewrite Hargs.
  destruct (ids_file args) as [path |].
  2: { exists []. rewrite app_nil_r. simpl. repeat split; [done | lia | done]. }
  destruct (String.eqb path "").
  { exists []. rewrite app_nil_r. simpl. repeat split; [done | lia | done]. }
  destruct (open_ path) as [lines failure] eqn:Hopen.
  exists (ids_of_lines lines). simpl.
  split; [done |]. split; [apply ids_of_lines_clean |]. split.
  - destruct failure; simpl; lia.
  - intros Hne. exists path. split; [done |]. rewrite Hopen. simpl.
    by destruct failure.
Qed.

(** X13: the key of the page history gives back the cursor it was made
    from exactly when the cursor is not the empty string nor the text
    ["__root__"]: these two share their key with the first page, and
    come back as the first page. *)
Theorem history_key_round_trip identifier :
  (_identifier_from_key (Some (_key_for_identifier identifier)) = identifier
   <-> identifier <> Some "" /\ identifier <> Some "__root__")
  /\ (_identifier_from_key (Some (_key_for_identifier identifier)) = None
      <-> identifier = None \/ identifier = Some ""
          \/ identifier = Some "__root__")
  /\ _key_for_identifier identifier <> "".
Proof.
  unfold _identifier_from_key, _key_for_identifier.
  destruct identifier as [s |]; simpl.
  2: { repeat split; try done. by left. }
  destruct (String.eqb s "") eqn:He; simpl.
  { apply String.eqb_eq in He as ->. repeat split; try done.
    - by intros [H _].
    - intros _. by right; left. }
  rewrite He. simpl.
  destruct (String.eqb s "__root__") eqn:Hr.
  { apply String.eqb_eq in Hr as ->. repeat split; try done.
    - by intros [_ H].
    - intros _. by right; right. }
  apply String.eqb_neq in He, Hr. repeat split; try done; try congruence.
  intros [H | [H | H]]; congruence.
Qed.

(** ** The properties on the fixtures *)

(** C1, counterexample: a page whose only message has a number for
    creation timestamp is fetched and its message normalized, and the
    ascending run raises [TypeError] in its sort and yields nothing;
    and when the second answer has a list for body, the traversal raises
    after its first page and the ascending run yields nothing of that
    page. *)
Lemma ascending_mode_raises_on_number_stamp :
  (@iter_conversation_pages scripted "c" "tok" 0 2 number_stamped_page
   = (Ret tt, [],
      [EFetch (first_request "c" "tok") (paged [PDict number_stamped] None);
       EPage ([PDict number_stamped], PDict [])])
   /\ page_messages ([PDict number_stamped], PDict []) = [number_stamped]
   /\ @iter_enriched_messages canonical_parser scripted "c" "tok" "asc" 0 2
        number_stamped_page
      = (Raise TypeError, [],
         [EFetch (first_request "c" "tok")
            (paged [PDict number_stamped] None)]))
  /\ (@iter_conversation_pages scripted "c" "tok" 0 2 page_then_list_body
      = (Raise AttributeError, [],
         [EFetch (first_request "c" "tok") (first_answer T1 T3);
          EPage ([msg "m3" T3; msg "m1" T1], PDict [("next", PStr page2_url)]);
          EFetch (second_request "c" "tok") list_body_answer])
      /\ @iter_enriched_messages canonical_parser scripted "c" "tok" "asc" 0 2
           page_then_list_body
         = (Raise AttributeError, [],
            [EFetch (first_request "c" "tok") (first_answer T1 T3);
             EFetch (second_request "c" "tok") list_body_answer])).
Proof. repeat split; vm_compute; reflexivity. Qed.

(** C2, counterexample: on the page whose only message has a number for
    creation timestamp, the descending run raises [TypeError] in the
    sort of the page and does not yield its message. *)
Lemma descending_mode_raises_on_number_stamp :
  @iter_conversation_pages scripted "c" "tok" 0 2 number_stamped_page
  = (Ret tt, [],
     [EFetch (first_request "c" "tok") (paged [PDict number_stamped] None);
      EPage ([PDict number_stamped], PDict [])])
  /\ page_messages ([PDict number_stamped], PDict []) = [number_stamped]
  /\ @iter_enriched_messages canonical_parser scripted "c" "tok" "desc" 0 2
       number_stamped_page
     = (Raise TypeError, [],
        [EFetch (first_request "c" "tok")
           (paged [PDict number_stamped] None)]).
Proof. repeat split; vm_compute; reflexivity. Qed.

(** C1 (as amended) on the two pages stamped [T3, T1] and [T4, T2]. *)
Lemma ascending_mode_witness :
  (@iter_conversation_pages scripted "c" "tok" 0 2 two_pages
   = (Ret tt, [], two_pages_trace "c" "tok" T1 T2 T3 T4)
   /\ Forall (fun m => @str_keyed m = true)
        (flat_map page_messages (pages (two_pages_trace "c" "tok" T1 T2 T3 T4)))
   /\ exists pre sorted,
        @iter_enriched_messages canonical_parser scripted "c" "tok" "asc" 0 2
          two_pages
        = (Ret tt, [], pre ++ map EYield sorted)
        /\ fetches pre = fetches (two_pages_trace "c" "tok" T1 T2 T3 T4)
        /\ yields pre = []
        /\ Permutation
             (flat_map page_messages
                (pages (two_pages_trace "c" "tok" T1 T2 T3 T4))) sorted
        /\ @ascending canonical_parser sorted
        /\ forall k,
             @with_key canonical_parser k sorted
             = @with_key canonical_parser k
                 (flat_map page_messages
                    (pages (two_pages_trace "c" "tok" T1 T2 T3 T4))))
  /\ yields (@iter_enriched_messages canonical_parser scripted "c" "tok" "asc" 0
               2 two_pages).2
     = [stamped "m1" T1; stamped "m2" T2; stamped "m3" T3; stamped "m4" T4].
Proof.
  split.
  - split; [reflexivity |]. split; [repeat constructor |].
    apply (proj1 (@ascending_mode_sorts_whole_conversation canonical_parser
                    scripted)); [reflexivity | repeat constructor].
  - apply (proj2 (@ascending_mode_sorts_whole_conversation canonical_parser
                    scripted) "c" "tok" 0%nat T1 T2 T3 T4
             1714557601000000 1714557602000000 1714557603000000 1714557604000000);
      try discriminate; try reflexivity.
Defined.

(** C2 (as amended) on the same two pages. *)
Lemma descending_mode_witness :
  ("desc" <> "asc"
   /\ @iter_conversation_pages scripted "c" "tok" 0 2 two_pages
      = (Ret tt, [], two_pages_trace "c" "tok" T1 T2 T3 T4)
   /\ Forall (fun m => @str_keyed m = true)
        (flat_map page_messages (pages (two_pages_trace "c" "tok" T1 T2 T3 T4)))
   /\ exists out : list pyval * pyval -> list NormalizedMessage,
        (forall page,
           Permutation (page_messages page) (out page)
           /\ @descending canonical_parser (out page)
           /\ forall k,
                @with_key canonical_parser k (out page)
                = @with_key canonical_parser k (page_messages page))
        /\ @iter_enriched_messages canonical_parser scripted "c" "tok" "desc" 0 2
             two_pages
           = (Ret tt, [],
              flat_map (substitute (fun page =>
                          page_notices page ++ map EYield (out page)))
                (two_pages_trace "c" "tok" T1 T2 T3 T4))
        /\ yields (@iter_enriched_messages canonical_parser scripted "c" "tok"
                     "desc" 0 2 two_pages).2
           = flat_map out (pages (two_pages_trace "c" "tok" T1 T2 T3 T4)))
  /\ (@iter_enriched_messages canonical_parser scripted "c" "tok" "desc" 0 2
        two_pages).2
     = [EFetch (first_request "c" "tok") (first_answer T1 T3);
        EYield (stamped "m3" T3); EYield (stamped "m1" T1);
        EFetch (second_request "c" "tok") (second_answer T2 T4);
        EYield (stamped "m4" T4); EYield (stamped "m2" T2)].
Proof.
  split.
  - split; [discriminate |]. split; [reflexivity |].
    split; [repeat constructor |].
    apply (proj1 (@descending_mode_sorts_page_by_page canonical_parser scripted));
      [discriminate | reflexivity | repeat constructor].
  - apply (proj2 (@descending_mode_sorts_page_by_page canonical_parser scripted)
             "c" "tok" 0%nat T1 T2 T3 T4
             1714557601000000 1714557602000000 1714557603000000 1714557604000000);
      try discriminate; try reflexivity.
Defined.



(** C4 on the pager with ceiling 1 after its first page. *)
Lemma fetch_page_ceiling_witness :
  (0 < 1
   /\ @reachable canonical_parser scripted
        (ConversationPager_init "c" "tok" "asc" 1)
        (with_page pager1 None first_page)
   /\ 1 <= Z.of_nat (size (_cache (with_page pager1 None first_page)))
   /\ forall c w,
        match _cache (with_page pager1 None first_page) !! c with
        | Some page =>
            @fetch_page canonical_parser scripted
              (with_page pager1 None first_page) c w
            = (Ret (Some page, with_page pager1 None first_page), w, [])
        | None =>
            @fetch_page canonical_parser scripted
              (with_page pager1 None first_page) c w
            = (Ret (None, with_page pager1 None first_page), w, [])
        end)
  /\ (@fetch_page canonical_parser scripted
        (ConversationPager_init "c" "tok" "asc" 1) None two_pages
      = (Ret (Some first_page, with_page pager1 None first_page),
         [second_answer T2 T4],
         [EFetch (pager_request None) (first_answer T1 T3)])
      /\ forall c2 w2,
           (c2 <> None ->
            @fetch_page canonical_parser scripted
              (with_page pager1 None first_page) c2 w2
            = (Ret (None, with_page pager1 None first_page), w2, []))
           /\ @fetch_page canonical_parser scripted
                (with_page pager1 None first_page) None w2
              = (Ret (Some first_page, with_page pager1 None first_page), w2, [])).
Proof.
  assert (Hcall : @fetch_page canonical_parser scripted
                    (ConversationPager_init "c" "tok" "asc" 1) None two_pages
                  = (Ret (Some first_page, with_page pager1 None first_page),
                     [second_answer T2 T4],
                     [EFetch (pager_request None) (first_answer T1 T3)])).
  { vm_compute; reflexivity. }
  assert (Hreach : @reachable canonical_parser scripted
                     (ConversationPager_init "c" "tok" "asc" 1)
                     (with_page pager1 None first_page)).
  { eapply reachable_call; [apply reachable_init | exact Hcall]. }
  assert (Hsize : 1 <= Z.of_nat (size (_cache (with_page pager1 None first_page)))).
  { vm_compute. discriminate. }
  split.
  - split; [lia |]. split; [exact Hreach |]. split; [exact Hsize |].
    apply (proj1 (@fetch_page_ceiling_enforced canonical_parser scripted)
             "c" "tok" "asc" 1); [lia | exact Hreach | exact Hsize].
  - split; [exact Hcall |].
    apply (proj2 (@fetch_page_ceiling_enforced canonical_parser scripted)
             "c" "tok" "asc" None two_pages first_page _
             [second_answer T2 T4] _ Hcall).
Defined.


(** A body that is not a mapping is not read at all: the exception
    leaves the traversal. *)
Lemma list_body_raises :
  @iter_enriched_messages canonical_parser scripted "c" "tok" "asc" 0 3
    [list_body_answer]
  = (Raise AttributeError, [],
     [EFetch (first_request "c" "tok") list_body_answer]).
Proof. vm_compute; reflexivity. Qed.


(** C6, counterexample: a record that is not a mapping is rejected
    without any notice. *)
Lemma non_mapping_rejected_silently :
  @normalize_message scripted (PStr "not a record") [] = (Ret None, [], []).
Proof. reflexivity. Qed.

(** C6 (as amended) on the pager of the fixtures. *)
Lemma normalize_message_witness :
  @reachable canonical_parser scripted
    (ConversationPager_init "c" "tok" "asc" 1) pager1
  /\ @fetch_page canonical_parser scripted pager1 None two_pages
     = (Ret (Some first_page, with_page pager1 None first_page),
        [second_answer T2 T4],
        [EFetch (pager_request None) (first_answer T1 T3)])
  /\ In (stamped "m1" T1) (messages first_page)
  /\ has_identifier (PDict (stamped "m1" T1)).
Proof.
  assert (Hcall : @fetch_page canonical_parser scripted pager1 None two_pages
                  = (Ret (Some first_page, with_page pager1 None first_page),
                     [second_answer T2 T4],
                     [EFetch (pager_request None) (first_answer T1 T3)])).
  { vm_compute; reflexivity. }
  split; [apply reachable_init |]. split; [exact Hcall |].
  split; [by left |].
  apply (proj2 (proj2 (proj2
           (@normalize_message_rejects_malformed canonical_parser scripted)))
           "c" "tok" "asc" 1 pager1 None two_pages first_page
           (with_page pager1 None first_page) [second_answer T2 T4]
           [EFetch (pager_request None) (first_answer T1 T3)]
           (stamped "m1" T1)
           (reachable_init _) Hcall).
  by left.
Defined.

(** C7, counterexample: a page with an empty record set that carries a
    next cursor does not end the traversal. *)
Lemma empty_page_continues :
  @iter_conversation_pages scripted "c" "tok" 0 3
    [empty_page_answer; second_answer T2 T4]
  = (Ret tt, [],
     [EFetch (first_request "c" "tok") empty_page_answer;
      EPage ([], PDict [("next", PStr page2_url)]);
      EFetch (second_request "c" "tok") (second_answer T2 T4);
      EPage ([msg "m4" T4; msg "m2" T2], PDict [])]).
Proof. reflexivity. Qed.

(** C7 (as amended) on the two pages of the fixtures, under ceiling 2. *)
Lemma iter_conversation_pages_stops_witness :
  @iter_conversation_pages scripted "c" "tok" 2 3 two_pages
  = (Ret tt, [], two_pages_trace "c" "tok" T1 T2 T3 T4)
  /\ (0 < 2 ->
      Z.of_nat (length (pages (two_pages_trace "c" "tok" T1 T2 T3 T4))) <= 2)
  /\ (0 < 2 -> (Z.to_nat 2 < 3)%nat -> Ret tt <> @OutOfFuel unit).
Proof.
  split; [reflexivity |].
  destruct (@iter_conversation_pages_stops scripted "c" "tok" 2 3%nat two_pages
              (Ret tt) [] (two_pages_trace "c" "tok" T1 T2 T3 T4) eq_refl)
    as (Hceil & _ & _ & _ & Hfuel).
  split; [exact Hceil | exact Hfuel].
Defined.

(** C8, counterexample: a message without a timestamp and a message
    stamped at the epoch itself, a real timestamp that is not before the
    epoch: the first sorts after the second.  And the key of a message
    whose creation timestamp is a number is not computed at all. *)
Lemma epoch_tie_sorts_by_identifier :
  @parsed_timestamp canonical_parser unstamped = None
  /\ @parsed_timestamp canonical_parser stamped_at_epoch = Some EPOCH
  /\ list_sort (@key canonical_parser) false [unstamped; stamped_at_epoch]
     = Ret [stamped_at_epoch; unstamped]
  /\ @key canonical_parser number_stamped = Raise TypeError.
Proof. repeat split; reflexivity. Qed.

(** C8 (as amended) on a message without a timestamp and one stamped
    [T1]. *)
Lemma ordering_key_total_order_witness :
  @str_keyed unstamped = true /\ @str_keyed (stamped "m1" T1) = true
  /\ @parsed_timestamp canonical_parser unstamped = None
  /\ @parsed_timestamp canonical_parser (stamped "m1" T1)
     = Some 1714557601000000
  /\ EPOCH < 1714557601000000
  /\ ordering_key_ltb (@ordering_key canonical_parser unstamped)
       (@ordering_key canonical_parser (stamped "m1" T1)) = true.
Proof.
  repeat (split; [reflexivity |]).
  apply (proj2 (proj2 (proj2 (@ordering_key_total_order canonical_parser)))
           unstamped (stamped "m1" T1) 1714557601000000);
    reflexivity.
Defined.

(** X14 on a record with a direct text and an attachment payload, and on
    a record with an attachment payload [body] alone. *)
Lemma extract_message_text_witness :
  (attachment_entries direct_and_attachment
   = Ret [PDict [("payload", PDict [("text", PStr "other")])]]
   /\ extract_message_text direct_and_attachment
      = Ret (first_text
               (candidates direct_and_attachment
                  [PDict [("payload", PDict [("text", PStr "other")])]])))
  /\ (dict_get direct_and_attachment "message" = Some (PStr "  hello ")
      /\ strip "  hello " <> ""
      /\ extract_message_text direct_and_attachment = Ret (Some (strip "  hello ")))
  /\ (dict_get attachment_body_only "message" = None
      /\ dict_get attachment_body_only "text" = None
      /\ strip " hi " <> ""
      /\ extract_message_text attachment_body_only = Ret (Some (strip " hi "))).
Proof.
  split; [| split].
  - split; [reflexivity |].
    apply (proj1 extract_message_text_probe_order). reflexivity.
  - split; [reflexivity |]. split; [discriminate |].
    apply (proj1 (proj2 extract_message_text_probe_order));
      [reflexivity | discriminate].
  - split; [reflexivity |]. split; [reflexivity |]. split; [discriminate |].
    apply (proj2 (proj2 extract_message_text_probe_order));
      [reflexivity | reflexivity | reflexivity | discriminate].
Defined.

(** C10 on [page_limit = -1]. *)
Lemma negative_page_limit_witness :
  -1 < 0
  /\ ConversationPager_init "c" "tok" "asc" (-1)
     = ConversationPager_init "c" "tok" "asc" 0
  /\ (forall fuel w,
        @iter_conversation_pages scripted "c" "tok" (-1) (S fuel) w
        = (Ret tt, w, []))
  /\ (forall fuel w,
        @iter_enriched_messages canonical_parser scripted "c" "tok" "asc" (-1)
          (S fuel) w
        = (Ret tt, w, [])).
Proof.
  split; [lia |].
  destruct (@negative_page_limit_disagreement canonical_parser scripted
              "c" "tok" "asc" (-1) ltac:(lia)) as (Hinit & _ & Hpages & Hmsgs).
  split; [exact Hinit |]. split; [exact Hpages | exact Hmsgs].
Defined.

(** X1 on the two pages of the fixtures: the first request asks for the
    fields, the second goes to the next cursor of the first page. *)
Lemma iter_conversation_pages_request_chain_witness :
  @iter_conversation_pages scripted "c" "tok" 0 2 two_pages
  = (Ret tt, [], two_pages_trace "c" "tok" T1 T2 T3 T4)
  /\ (forall e tr',
        two_pages_trace "c" "tok" T1 T2 T3 T4 = e :: tr' ->
        exists rq res,
          e = EFetch rq res
          /\ req_url rq = PStr (conversation_messages_url "c")
          /\ req_params rq = Some [("fields", MESSAGE_FIELDS)])
  /\ (forall tr1 page rq res tr2,
        two_pages_trace "c" "tok" T1 T2 T3 T4
        = tr1 ++ EPage page :: EFetch rq res :: tr2 ->
        exists d,
          page.2 = PDict d /\ truthy (dict_get_none d "next") = true
          /\ req_url rq = dict_get_none d "next" /\ req_params rq = None)
  /\ (forall rq,
        In rq (fetches (two_pages_trace "c" "tok" T1 T2 T3 T4)) ->
        req_headers rq = [("Authorization", "Bearer " +:+ "tok")]
        /\ req_timeout rq = 30)
  /\ (forall tr1 page tr2,
        two_pages_trace "c" "tok" T1 T2 T3 T4 = tr1 ++ EPage page :: tr2 ->
        exists tr0 rq res,
          tr1 = tr0 ++ [EFetch rq res] /\ fetch_outcome res = Ret (Some page)).
Proof.
  split; [reflexivity |].
  apply (iter_conversation_pages_request_chain (T := scripted)
           "c" "tok" 0 2%nat two_pages (Ret tt) []).
  reflexivity.
Defined.

(** X2 under the ceiling 1, with more answers than the ceiling allows. *)
Lemma iter_conversation_pages_request_bound_witness :
  0 < 1
  /\ Z.of_nat (length (fetches (@iter_conversation_pages scripted "c" "tok" 1 3
                                  two_pages).2)) <= 1.
Proof.
  split; [lia |].
  apply (iter_conversation_pages_request_bound (T := scripted)
           "c" "tok" 1 3%nat two_pages).
  lia.
Defined.

(** X3 on the two pages of the fixtures. *)
Lemma iter_enriched_messages_modes_agree_witness :
  "desc" <> "asc"
  /\ @iter_conversation_pages scripted "c" "tok" 0 2 two_pages
     = (Ret tt, [], two_pages_trace "c" "tok" T1 T2 T3 T4)
  /\ Forall (fun m => @str_keyed m = true)
       (flat_map page_messages (pages (two_pages_trace "c" "tok" T1 T2 T3 T4)))
  /\ fetches (@iter_enriched_messages canonical_parser scripted "c" "tok" "asc"
                0 2 two_pages).2
     = fetches (@iter_enriched_messages canonical_parser scripted "c" "tok"
                  "desc" 0 2 two_pages).2
  /\ Permutation
       (yields (@iter_enriched_messages canonical_parser scripted "c" "tok"
                  "asc" 0 2 two_pages).2)
       (yields (@iter_enriched_messages canonical_parser scripted "c" "tok"
                  "desc" 0 2 two_pages).2)
  /\ Permutation
       (flat_map page_messages (pages (two_pages_trace "c" "tok" T1 T2 T3 T4)))
       (yields (@iter_enriched_messages canonical_parser scripted "c" "tok"
                  "asc" 0 2 two_pages).2).
Proof.
  split; [discriminate |]. split; [reflexivity |].
  split; [repeat constructor |].
  apply (iter_enriched_messages_modes_agree (TP := canonical_parser)
           (T := scripted) "c" "tok" "desc" 0 2%nat two_pages []
           (two_pages_trace "c" "tok" T1 T2 T3 T4));
    [discriminate | reflexivity | repeat constructor].
Defined.

(** X4 on a conversation of one page. *)
Lemma descending_reverses_ascending_witness :
  yields (@iter_enriched_messages canonical_parser scripted "c" "tok" "desc"
            0 2 one_page).2
  = rev (yields (@iter_enriched_messages canonical_parser scripted "c" "tok"
                   "asc" 0 2 one_page).2)
  /\ yields (@iter_enriched_messages canonical_parser scripted "c" "tok" "desc"
               0 2 one_page).2
     = [stamped "m4" T4; stamped "m2" T2].
Proof.
  split; [| reflexivity].
  apply (descending_reverses_ascending_on_one_page (TP := canonical_parser)
           (T := scripted) "c" "tok" "desc" 0 2%nat one_page []
           [EFetch (first_request "c" "tok") (second_answer T2 T4);
            EPage ([msg "m4" T4; msg "m2" T2], PDict [])]
           ([msg "m4" T4; msg "m2" T2], PDict []));
    [discriminate | reflexivity | reflexivity | repeat constructor |].
  apply NoDup_ListNoDup. vm_compute.
  repeat constructor; simpl; intros H; repeat destruct H as [H | H];
    discriminate || done.
Defined.

(** X5 when the body of the second answer is a list. *)
Lemma exception_discards_ascending_output_witness :
  "desc" <> "asc"
  /\ (@iter_enriched_messages canonical_parser scripted "c" "tok" "asc" 0 2
        page_then_list_body).1
     = (Raise AttributeError, [])
  /\ yields (@iter_enriched_messages canonical_parser scripted "c" "tok" "asc"
               0 2 page_then_list_body).2
     = []
  /\ (@iter_enriched_messages canonical_parser scripted "c" "tok" "desc" 0 2
        page_then_list_body).1
     = (Raise AttributeError, [])
  /\ yields (@iter_enriched_messages canonical_parser scripted "c" "tok" "desc"
               0 2 page_then_list_body).2
     = flat_map
         (fun page => @sort_messages canonical_parser true (page_messages page))
         [([msg "m3" T3; msg "m1" T1], PDict [("next", PStr page2_url)])].
Proof.
  split; [discriminate |].
  apply (exception_discards_ascending_output (TP := canonical_parser)
           (T := scripted) "c" "tok" "desc" 0 2%nat page_then_list_body
           AttributeError []
           [EFetch (first_request "c" "tok") (first_answer T1 T3);
            EPage ([msg "m3" T3; msg "m1" T1],
                   PDict [("next", PStr page2_url)]);
            EFetch (second_request "c" "tok") list_body_answer]);
    [discriminate | reflexivity | repeat constructor].
Defined.

(** X6 on a body that is a list and on a body whose [messages] field is
    a string. *)
Lemma page_of_payload_raises_exactly_witness :
  page_of_payload (PList []) = Raise AttributeError
  /\ page_of_payload (PDict [("messages", PStr "none")]) = Raise AttributeError.
Proof.
  split.
  - apply (proj1 (page_of_payload_raises_exactly (PList []))).
    left. intros d. discriminate.
  - apply (proj1 (page_of_payload_raises_exactly
                    (PDict [("messages", PStr "none")]))).
    right. exists [("messages", PStr "none")], (PStr "none").
    split; [reflexivity |]. split; [reflexivity |]. intros c. discriminate.
Defined.

(** X7 on a request that times out. *)
Lemma fetch_conversation_page_one_request_witness :
  failed timed_out = true
  /\ (@fetch_conversation_page scripted "c" "tok" PNone None [timed_out]).1.1
     = Ret None.
Proof.
  split; [reflexivity |].
  apply (proj1 (proj2 (proj2 (fetch_conversation_page_one_request
                                (T := scripted) "c" "tok" PNone None
                                [timed_out])))).
  reflexivity.
Defined.

(** X8 on the first page of the fixtures. *)
Lemma pager_pages_ordered_witness :
  @reachable canonical_parser scripted pager1 pager1
  /\ @fetch_page canonical_parser scripted pager1 None two_pages
     = (Ret (Some first_page, with_page pager1 None first_page),
        [second_answer T2 T4],
        [EFetch (pager_request None) (first_answer T1 T3)])
  /\ Forall (fun m => @str_keyed m = true) (messages first_page)
  /\ identifier first_page = None
  /\ @ascending canonical_parser (messages first_page).
Proof.
  split; [constructor |]. split; [vm_compute; reflexivity |].
  split; [repeat constructor |].
  destruct (pager_pages_ordered (TP := canonical_parser) (T := scripted)
              "c" "tok" "asc" 1 pager1 None two_pages first_page
              (with_page pager1 None first_page) [second_answer T2 T4]
              [EFetch (pager_request None) (first_answer T1 T3)])
    as [Hid Hord]; [constructor | vm_compute; reflexivity |].
  split; [exact Hid |]. apply Hord. repeat constructor.
Defined.

(** X9 on the pager with ceiling 1 after its first page. *)
Lemma pager_cache_bounded_witness :
  0 < 1
  /\ @reachable canonical_parser scripted
       (ConversationPager_init "c" "tok" "asc" 1)
       (with_page pager1 None first_page)
  /\ _fetched (with_page pager1 None first_page)
     = Z.of_nat (size (_cache (with_page pager1 None first_page)))
  /\ Z.of_nat (size (_cache (with_page pager1 None first_page))) <= 1
  /\ _page_limit (with_page pager1 None first_page) = 1.
Proof.
  assert (Hreach : @reachable canonical_parser scripted
                     (ConversationPager_init "c" "tok" "asc" 1)
                     (with_page pager1 None first_page)).
  { apply (@reachable_call canonical_parser scripted _ pager1 None two_pages
             (Some first_page) (with_page pager1 None first_page)
             [second_answer T2 T4]
             [EFetch (pager_request None) (first_answer T1 T3)]);
      [constructor | vm_compute; reflexivity]. }
  split; [lia |]. split; [exact Hreach |].
  apply (pager_cache_bounded (TP := canonical_parser) (T := scripted)
           "c" "tok" "asc" 1 (with_page pager1 None first_page));
    [lia | exact Hreach].
Defined.

(** X10 on the two pages of the fixtures, in ascending order. *)
Lemma pager_first_page_witness :
  @fetch_page canonical_parser scripted pager0 None two_pages
  = (Ret (Some first_page, with_page pager0 None first_page),
     [second_answer T2 T4],
     [EFetch (pager_request None) (first_answer T1 T3)])
  /\ yields (@iter_enriched_messages canonical_parser scripted "c" "tok" "asc"
               1 2 two_pages).2
     = messages first_page.
Proof.
  split; [vm_compute; reflexivity |].
  destruct (pager_first_page_is_stream_of_one_page (TP := canonical_parser)
              (T := scripted) "c" "tok" "asc" 0 2%nat two_pages
              [second_answer T2 T4]
              (@iter_enriched_messages canonical_parser scripted "c" "tok"
                 "asc" 1 2 two_pages).2
              first_page (with_page pager0 None first_page)
              [second_answer T2 T4]
              [EFetch (pager_request None) (first_answer T1 T3)])
    as (_ & _ & _ & Hsame & _);
    [vm_compute; reflexivity | vm_compute; reflexivity |].
  apply Hsame. by left.
Defined.

(** X11 on a record with a padded direct text. *)
Lemma extract_message_text_trimmed_witness :
  extract_message_text direct_and_attachment = Ret (Some "hello")
  /\ "hello" <> "" /\ strip "hello" = "hello".
Proof.
  split; [reflexivity |].
  apply (extract_message_text_trimmed direct_and_attachment "hello").
  reflexivity.
Defined.

(** X12 on one identifier of the command line and the file of the
    fixtures. *)
Lemma iter_conversation_ids_witness :
  iter_conversation_ids ids_files
    {| ids := [" a "]; ids_file := Some ids_path |}
  = ([" a "; "17841400000000001"; "17841400000000002"], [])
  /\ exists from_file,
       (iter_conversation_ids ids_files
          {| ids := [" a "]; ids_file := Some ids_path |}).1
       = [" a "] ++ from_file
       /\ Forall (fun i => i <> "" /\ strip i = i) from_file
       /\ (length (iter_conversation_ids ids_files
                     {| ids := [" a "]; ids_file := Some ids_path |}).2
           <= 1)%nat
       /\ ((iter_conversation_ids ids_files
              {| ids := [" a "]; ids_file := Some ids_path |}).2 <> [] ->
           exists path,
             Some ids_path = Some path /\ (ids_files path).2 <> None).
Proof.
  split; [vm_compute; reflexivity |].
  apply (iter_conversation_ids_sequence ids_files
           {| ids := [" a "]; ids_file := Some ids_path |}).
Defined.

(** X13 on the two cursors that share the key of the first page. *)
Lemma history_key_round_trip_witness :
  _identifier_from_key (Some (_key_for_identifier (Some "__root__"))) = None
  /\ _identifier_from_key (Some (_key_for_identifier (Some ""))) = None
  /\ _identifier_from_key (Some (_key_for_identifier (Some page2_url)))
     = Some page2_url.
Proof.
  split; [| split].
  - apply (proj2 (proj1 (proj2 (history_key_round_trip (Some "__root__"))))).
    by right; right.
  - apply (proj2 (proj1 (proj2 (history_key_round_trip (Some ""))))).
    by right; left.
  - apply (proj2 (proj1 (history_key_round_trip (Some page2_url)))).
    split; discriminate.
Defined.
